(** * Mdl_function_call: argument binding, lowering, persistence, references

  A shallow embedding of
  [src/io/scene/mdl_elements/mdl_elements_function_call.cpp].

  The class [Mdl_function_call] becomes a record; its mutating member
  functions take the object and return the updated object next to their
  C++ return value.  Everything the translation unit only calls (the type,
  value and expression factories, the database, the JIT back end, the
  serializer) is an interface here: either a type class whose members stand
  for the external functions, or a small model marked as such. *)

From Stdlib Require Import ZArith Lia Ascii DecimalString.
From stdpp Require Import base option strings list gmap sets.

Local Open Scope Z_scope.
Set Warnings "-register-all".

(** ** Scalars of namespace [mi] and [DB] *)

(** [DB::Tag] wraps an unsigned integer; the value 0 is the invalid tag. *)
Abbreviation Tag := N (only parsing).
Abbreviation Tag_set := (gset N) (only parsing).

Definition tag_is_valid (t : Tag) : bool := negb (N.eqb t 0%N).

(** [static_cast<mi::Size>(-1)], the index that the list classes answer for a
    name they do not hold. *)
Definition Size_none : Z := 2 ^ 64 - 1.

(** [static_cast<mi::Uint32>(x)]. *)
Definition static_cast_Uint32 (x : Z) : Z := x mod 2 ^ 32.

(** [mi::mdl::IDefinition::Semantics] is a plain enum: it is carried as the
  integer value of its enumerator. *)
Abbreviation Semantics := Z (only parsing).

(** ** Namespace [MI::MDL]: types, expressions and their lists *)

Module MDL.

(** [IType::Kind]; [TK_COMPOUND] stands for the enumerators of the types
    with components (enums, vectors, matrices, arrays, structs), of the
    resources and of the distribution functions. *)
Inductive Type_kind : Type :=
  | TK_ALIAS | TK_BOOL | TK_INT | TK_FLOAT | TK_DOUBLE | TK_STRING | TK_COLOR
  | TK_COMPOUND.

(** [IType].  An alias carries the modifier mask it adds to the aliased
    type; the remaining kinds carry nothing this file reads. *)
Inductive IType : Type :=
  | Type_alias (aliased : IType) (modifiers : Z)
  | Type_plain (kind : Type_kind).

(** [IType::Modifier]: one bit for each qualifier. *)
Definition MK_NONE : Z := 0.
Definition MK_UNIFORM : Z := 2.
Definition MK_VARYING : Z := 4.

(** Modelled from the spec: [IType::get_all_type_modifiers] is declared in
    [i_mdl_elements_type.h]; the qualifiers that a type "carries" are the
    modifier masks along its chain of aliases. *)
Fixpoint get_all_type_modifiers (t : IType) : Z :=
  match t with
  | Type_alias aliased modifiers => Z.lor modifiers (get_all_type_modifiers aliased)
  | Type_plain _ => 0
  end.

(** [IType::skip_all_type_aliases]. *)
Fixpoint skip_all_type_aliases (t : IType) : IType :=
  match t with
  | Type_alias aliased _ => skip_all_type_aliases aliased
  | Type_plain _ => t
  end.

(** [IValue]: a float, a color or any other compound value is carried as the
    words of its representation. *)
Inductive IValue : Type :=
  | Value_bool (b : bool)
  | Value_int (i : Z)
  | Value_string (s : string)
  | Value_bits (bits : list Z).

(** [IExpression::Kind]. *)
Inductive Expression_kind : Type :=
  | EK_CONSTANT | EK_CALL | EK_PARAMETER | EK_DIRECT_CALL | EK_TEMPORARY.

Definition Expression_kind_eqb (a b : Expression_kind) : bool :=
  match a, b with
  | EK_CONSTANT, EK_CONSTANT | EK_CALL, EK_CALL | EK_PARAMETER, EK_PARAMETER
  | EK_DIRECT_CALL, EK_DIRECT_CALL | EK_TEMPORARY, EK_TEMPORARY => true
  | _, _ => false
  end.

(** [IExpression] with its sub-interfaces, one constructor for each kind. *)
Inductive IExpression : Type :=
  | Expression_constant (type : IType) (value : IValue)
  | Expression_call (type : IType) (call : Tag)
  | Expression_parameter (type : IType) (index : Z)
  | Expression_direct_call (type : IType) (definition : Tag)
      (arguments : list (string * IExpression))
  | Expression_temporary (type : IType) (index : Z).

Definition get_type (e : IExpression) : IType :=
  match e with
  | Expression_constant t _ | Expression_call t _ | Expression_parameter t _
  | Expression_direct_call t _ _ | Expression_temporary t _ => t
  end.

Definition get_kind (e : IExpression) : Expression_kind :=
  match e with
  | Expression_constant _ _ => EK_CONSTANT
  | Expression_call _ _ => EK_CALL
  | Expression_parameter _ _ => EK_PARAMETER
  | Expression_direct_call _ _ _ => EK_DIRECT_CALL
  | Expression_temporary _ _ => EK_TEMPORARY
  end.

(** *** Named lists *)

(** Modelled from the spec: [IType_list] and [IExpression_list] are declared
    in [i_mdl_elements_type.h] and [i_mdl_elements_expression.h].  Each is
    an "ordered mapping from parameter name to" a type or an expression, where
    "insertion order defines parameter order for positional access": a list
    of named entries.  A lookup that finds nothing answers a null pointer
    ([None]) or the index [static_cast<mi::Size>(-1)]; [set_expression]
    replaces the entry of an index in range and otherwise answers -2 without
    touching the list.  An index is a [mi::Size]: unsigned. *)
Module Named_list.
Section Named_list.
Context {A : Type}.
Local Abbreviation t := (list (string * A)).

Definition get_size (l : t) : Z := Z.of_nat (length l).

Definition in_range (l : t) (index : Z) : bool :=
  (0 <=? index) && (index <? get_size l).

Definition get_entry (l : t) (index : Z) : option (string * A) :=
  if in_range l index then l !! Z.to_nat index else None.

Definition get_name (l : t) (index : Z) : option string :=
  fst <$> get_entry l index.

Definition get (l : t) (index : Z) : option A :=
  snd <$> get_entry l index.

Fixpoint find_name (name : string) (l : t) : option nat :=
  match l with
  | [] => None
  | (n, _) :: l' =>
      if String.eqb n name then Some O else S <$> find_name name l'
  end.

Definition get_index (l : t) (name : string) : Z :=
  match find_name name l with
  | Some i => Z.of_nat i
  | None => Size_none
  end.

Definition get_by_name (l : t) (name : string) : option A :=
  get l (get_index l name).

Definition rebind (x : A) (entry : string * A) : string * A := (entry.1, x).

Definition set (l : t) (index : Z) (x : A) : Z * t :=
  if in_range l index
  then (0, alter (rebind x) (Z.to_nat index) l)
  else (-2, l).
End Named_list.
End Named_list.

Abbreviation IType_list := (list (string * IType)) (only parsing).
Abbreviation IExpression_list := (list (string * IExpression)) (only parsing).

End MDL.


(** ** The call node *)

Import MDL.

(** The collaborators of the binder.  [argument_type_matches_parameter_type]
    and [return_type_is_varying] live in [mdl_elements_utilities.cpp], [clone]
    is [IExpression_factory::clone] at the arguments this file always passes
    (no transaction, [copy_immutable_calls = false]), and
    [expression_list_references] is the set of tags that the list overload of
    [collect_references] inserts into its result. *)
Class Collaborators : Type := {
  Transaction : Type;
  argument_type_matches_parameter_type : IType -> IType -> bool;
  return_type_is_varying : Transaction -> IExpression -> bool;
  clone : IExpression -> IExpression;
  expression_list_references : IExpression_list -> Tag_set
}.

(** The data members of [Mdl_function_call] (the three factory handles are
    the collaborators above). *)
Record Mdl_function_call : Type := {
  m_module_tag : Tag;
  m_definition_tag : Tag;
  m_function_index : Z;
  m_mdl_semantic : Semantics;
  m_definition_name : string;
  m_immutable : bool;
  m_parameter_types : IType_list;
  m_return_type : IType;
  m_arguments : IExpression_list;
  m_enable_if_conditions : IExpression_list
}.

Definition with_arguments (self : Mdl_function_call) (arguments : IExpression_list)
  : Mdl_function_call :=
  {| m_module_tag := m_module_tag self;
     m_definition_tag := m_definition_tag self;
     m_function_index := m_function_index self;
     m_mdl_semantic := m_mdl_semantic self;
     m_definition_name := m_definition_name self;
     m_immutable := m_immutable self;
     m_parameter_types := m_parameter_types self;
     m_return_type := m_return_type self;
     m_arguments := arguments;
     m_enable_if_conditions := m_enable_if_conditions self |}.

Definition get_parameter_count (self : Mdl_function_call) : Z :=
  Named_list.get_size (m_arguments self).

Definition get_parameter_name (self : Mdl_function_call) (index : Z) : option string :=
  Named_list.get_name (m_arguments self) index.

Definition get_parameter_index (self : Mdl_function_call) (name : string) : Z :=
  Named_list.get_index (m_arguments self) name.

(** ** Argument binder *)

Section Binder.
Context `{Collaborators}.

Definition has_modifier (modifiers mask : Z) : bool :=
  negb (Z.land modifiers mask =? 0).

(** [Mdl_function_call::set_argument( transaction, index, argument)].
    A null [argument] is [None]; the result pairs the returned [mi::Sint32]
    with the object after the call. *)
Definition set_argument (transaction : Transaction) (self : Mdl_function_call)
    (index : Z) (argument : option IExpression) : Z * Mdl_function_call :=
  match argument with
  | None => (-1, self)
  | Some argument =>
    match Named_list.get (m_parameter_types self) index with
    | None => (-2, self)
    | Some expected_type =>
      let actual_type := get_type argument in
      if negb (argument_type_matches_parameter_type actual_type expected_type)
      then (-3, self)
      else if m_immutable self
      then (-4, self)
      else
        let actual_type_varying :=
          has_modifier (get_all_type_modifiers actual_type) MK_VARYING in
        let expected_type_uniform :=
          has_modifier (get_all_type_modifiers expected_type) MK_UNIFORM in
        if actual_type_varying && expected_type_uniform
        then (-5, self)
        else
          let kind := get_kind argument in
          if negb (Expression_kind_eqb kind EK_CONSTANT)
             && negb (Expression_kind_eqb kind EK_CALL)
          then (-6, self)
          else if expected_type_uniform && return_type_is_varying transaction argument
          then (-8, self)
          else
            let argument_copy := clone argument in
            (0, with_arguments self
                  (Named_list.set (m_arguments self) index argument_copy).2)
    end
  end.

(** [Mdl_function_call::set_argument( transaction, name, argument)]. *)
Definition set_argument_by_name (transaction : Transaction) (self : Mdl_function_call)
    (name : option string) (argument : option IExpression) : Z * Mdl_function_call :=
  match name, argument with
  | Some name, Some _ =>
      let index := get_parameter_index self name in
      set_argument transaction self index argument
  | _, _ => (-1, self)
  end.

(** The loop of [set_arguments]: [count] iterations are left, the next one
    reads entry [i] of [arguments]. *)
Fixpoint set_arguments_loop (transaction : Transaction) (arguments : IExpression_list)
    (count : nat) (i : Z) (self : Mdl_function_call) : Z * Mdl_function_call :=
  match count with
  | O => (0, self)
  | S count' =>
      let name := Named_list.get_name arguments i in
      let argument := name ≫= Named_list.get_by_name arguments in
      let '(result, self') := set_argument_by_name transaction self name argument in
      if negb (result =? 0)
      then (result, self')
      else set_arguments_loop transaction arguments count' (i + 1) self'
  end.

(** [Mdl_function_call::set_arguments( transaction, arguments)]. *)
Definition set_arguments (transaction : Transaction) (self : Mdl_function_call)
    (arguments : option IExpression_list) : Z * Mdl_function_call :=
  match arguments with
  | None => (-1, self)
  | Some arguments =>
      let n := Named_list.get_size arguments in
      set_arguments_loop transaction arguments (Z.to_nat n) 0 self
  end.

(** [Mdl_function_call::make_mutable]; [definition_module] is
    [definition->get_module( transaction)] for the node's definition. *)
Definition make_mutable (definition_module : Tag) (self : Mdl_function_call)
  : Mdl_function_call :=
  {| m_module_tag :=
       if negb (tag_is_valid (m_module_tag self)) then definition_module
       else m_module_tag self;
     m_definition_tag := m_definition_tag self;
     m_function_index := m_function_index self;
     m_mdl_semantic := m_mdl_semantic self;
     m_definition_name := m_definition_name self;
     m_immutable := false;
     m_parameter_types := m_parameter_types self;
     m_return_type := m_return_type self;
     m_arguments := m_arguments self;
     m_enable_if_conditions := m_enable_if_conditions self |}.

(** ** Dependency collector *)

(** The list overload of [collect_references] inserts into [result]. *)
Definition collect_references (list : IExpression_list) (result : Tag_set) : Tag_set :=
  result ∪ expression_list_references list.

(** [Mdl_function_call::get_scene_element_references( result)]: the set
    behind [result] after the call. *)
Definition get_scene_element_references (self : Mdl_function_call) (result : Tag_set)
  : Tag_set :=
  let result :=
    if negb (m_immutable self) then {[ m_module_tag self ]} ∪ result else result in
  let result := collect_references (m_arguments self) result in
  collect_references (m_enable_if_conditions self) result.

End Binder.


(** ** Namespace [mi::mdl]: compiler types and the DAG *)

Module mi_mdl.

Inductive Kind : Type :=
  | TK_ALIAS | TK_BOOL | TK_INT | TK_FLOAT | TK_DOUBLE | TK_STRING | TK_COLOR
  | TK_STRUCT | TK_OTHER.

Definition Kind_eqb (a b : Kind) : bool :=
  match a, b with
  | TK_ALIAS, TK_ALIAS | TK_BOOL, TK_BOOL | TK_INT, TK_INT | TK_FLOAT, TK_FLOAT
  | TK_DOUBLE, TK_DOUBLE | TK_STRING, TK_STRING | TK_COLOR, TK_COLOR
  | TK_STRUCT, TK_STRUCT | TK_OTHER, TK_OTHER => true
  | _, _ => false
  end.

(** [mi::mdl::IType].  A struct type has a symbol and named fields; the kinds
    gathered under [Type_other] carry nothing this file reads. *)
Inductive IType : Type :=
  | Type_alias (aliased : IType)
  | Type_struct (symbol : string) (fields : list (IType * string))
  | Type_bool | Type_int | Type_float | Type_double | Type_string | Type_color
  | Type_other.

Definition get_kind (t : IType) : Kind :=
  match t with
  | Type_alias _ => TK_ALIAS
  | Type_struct _ _ => TK_STRUCT
  | Type_bool => TK_BOOL
  | Type_int => TK_INT
  | Type_float => TK_FLOAT
  | Type_double => TK_DOUBLE
  | Type_string => TK_STRING
  | Type_color => TK_COLOR
  | Type_other => TK_OTHER
  end.

Fixpoint skip_type_alias (t : IType) : IType :=
  match t with
  | Type_alias aliased => skip_type_alias aliased
  | _ => t
  end.

(** What [IType_struct] offers: the symbol's name and the fields. *)
Record IType_struct : Type := {
  get_symbol_name : string;
  get_fields : list (IType * string)
}.

Definition get_field_count (s : IType_struct) : Z := Z.of_nat (length (get_fields s)).

Definition get_field (s : IType_struct) (index : nat) : option (IType * string) :=
  get_fields s !! index.

(** Modelled from the spec: [mi::mdl::as<IType_struct>] is declared in
    [mi/mdl/mdl_types.h].  The cast answers the struct type, the "aggregate
    type" of the specification, that [type] is once its aliases are skipped,
    and null for every other kind. *)
Definition as_IType_struct (t : IType) : option IType_struct :=
  match skip_type_alias t with
  | Type_struct symbol fields =>
      Some {| get_symbol_name := symbol; get_fields := fields |}
  | _ => None
  end.

(** [DAG_node]; a [DAG_call] owns its [Call_argument]s ([arg], [param_name]). *)
Inductive DAG_node : Type :=
  | DAG_constant (value : MDL.IValue)
  | DAG_temporary (index : Z)
  | DAG_parameter (index : Z)
  | DAG_call (name : string) (semantic : Semantics)
             (arguments : list (DAG_node * string)) (return_type : IType).

Inductive Lambda_execution_context : Type :=
  | LEC_ENVIRONMENT | LEC_DISPLACEMENT.

(** The part of [ILambda_function] this file drives: the context it was
    created for, the root expressions stored so far and the body. *)
Record ILambda_function : Type := {
  lambda_context : Lambda_execution_context;
  lambda_roots : list DAG_node;
  lambda_body : option DAG_node
}.

Definition create_lambda_function (context : Lambda_execution_context)
  : ILambda_function :=
  {| lambda_context := context; lambda_roots := []; lambda_body := None |}.

(** Modelled from the spec: [ILambda_function::create_call] is declared in
    [mi/mdl/mdl_generated_dag.h]; it builds "a single DAG call node combining
    all converted arguments, tagged with the target's semantic classification
    and return type". *)
Definition create_call (name : string) (semantic : Semantics)
    (arguments : list (DAG_node * string)) (return_type : IType) : DAG_node :=
  DAG_call name semantic arguments return_type.

(** Modelled from the spec: [ILambda_function::store_root_expr] makes the
    node a "root expression" of the unit and answers its slot; the first one
    is "assigned root slot zero". *)
Definition store_root_expr (lambda : ILambda_function) (expr : DAG_node)
  : Z * ILambda_function :=
  (Z.of_nat (length (lambda_roots lambda)),
   {| lambda_context := lambda_context lambda;
      lambda_roots := lambda_roots lambda ++ [expr];
      lambda_body := lambda_body lambda |}).

(** Modelled from the spec: [ILambda_function::set_body] makes the node
    "the unit's body expression". *)
Definition set_body (lambda : ILambda_function) (expr : DAG_node) : ILambda_function :=
  {| lambda_context := lambda_context lambda;
     lambda_roots := lambda_roots lambda;
     lambda_body := Some expr |}.

(** The options of the JIT generator that this file sets. *)
Inductive Jit_option : Type :=
  | MDL_JIT_OPTION_ENABLE_RO_SEGMENT
  | MDL_JIT_OPTION_USE_BITANGENT
  | MDL_JIT_OPTION_OPT_LEVEL
  | MDL_JIT_OPTION_FAST_MATH.

(** [IGenerated_code_dag], as far as one function of it is queried. *)
Record IGenerated_code_dag : Type := {
  get_function_parameter_count : Z -> Z;
  get_function_parameter_name : Z -> Z -> string;
  get_function_parameter_type : Z -> Z -> IType;
  get_function_name : Z -> string
}.

End mi_mdl.


(** ** Graph lowering engine *)

Import mi_mdl.

(** What [create_jitted_function] reaches outside of the node: the JIT
    generator ([jit_generator_available] tells whether [load_code_generator]
    answered a valid interface), the database accesses to the definition and
    to the module of a tag, the configuration registry, the conversion of an
    argument to a DAG node and the two compile entry points (the call resolver
    they receive is bound to the transaction). *)
Class Lowering_world `{Collaborators} : Type := {
  Float32 : Type;
  IGenerated_code_lambda_function : Type;
  DS_INTRINSIC_DAG_FIELD_ACCESS : Semantics;
  jit_generator_available : bool;
  definition_mdl_return_type : Transaction -> Tag -> mi_mdl.IType;
  definition_mdl_semantic : Transaction -> Tag -> Semantics;
  module_code_dag : Transaction -> Tag -> IGenerated_code_dag;
  registry_jit_opt_level : option Z;
  registry_jit_fast_math : option bool;
  int_expr_to_mdl_dag_node :
    Transaction -> ILambda_function -> mi_mdl.IType -> option IExpression ->
    Float32 -> Float32 -> Float32 -> option DAG_node;
  add_mdl_db_prefix : string -> string;
  compile_into_switch_function :
    Transaction -> ILambda_function -> Z -> Z -> option IGenerated_code_lambda_function;
  compile_into_environment :
    Transaction -> ILambda_function -> option IGenerated_code_lambda_function
}.

(** The calls with an effect outside of the function, in program order. *)
Inductive Event `{Lowering_world} : Type :=
  | Set_option (option : Jit_option) (value : string)
  | Log_error (message : string)
  | Store_root_expr (expr : DAG_node)
  | Set_body (expr : DAG_node)
  | Compile_into_switch_function (lambda : ILambda_function)
      (num_texture_spaces num_texture_results : Z)
  | Compile_into_environment (lambda : ILambda_function).

(** The returned pointer (null is [None]), the value left in [*errors] and
    the events. *)
Record Outcome `{Lowering_world} : Type := {
  jitted_func : option IGenerated_code_lambda_function;
  errors : Z;
  events : list Event
}.

Definition is_compile_event `{Lowering_world} (e : Event) : bool :=
  match e with
  | Compile_into_switch_function _ _ _ | Compile_into_environment _ => true
  | _ => false
  end.

Definition double_quote : string := String "034"%char EmptyString.

(** [std::to_string( int)]. *)
Definition std_to_string (i : Z) : string :=
  DecimalString.NilZero.string_of_int (Z.to_int i).

Section Lowering.
Context `{Lowering_world}.

(** The check of the return type at the head of [create_jitted_function]:
    the value of [is_ok]. *)
Definition return_type_is_ok (return_type : mi_mdl.IType) : bool :=
  if Kind_eqb (get_kind (skip_type_alias return_type)) TK_COLOR
  then true
  else
    match as_IType_struct return_type with
    | Some s_type =>
        let is_ok :=
          if get_field_count s_type =? 2
          then
            match get_field s_type 0, get_field s_type 1 with
            | Some (c_type, _), Some (f_type, _) =>
                Kind_eqb (get_kind (skip_type_alias c_type)) TK_COLOR
                && Kind_eqb (get_kind (skip_type_alias f_type)) TK_FLOAT
            | _, _ => false
            end
          else false in
        if negb (String.eqb (get_symbol_name s_type) "::base::texture_return")
        then false
        else is_ok
    | None => false
    end.

(** The options set on the generator. *)
Definition jit_option_events : list Event :=
  [ Set_option MDL_JIT_OPTION_ENABLE_RO_SEGMENT "true";
    Set_option MDL_JIT_OPTION_USE_BITANGENT "true" ]
  ++ match registry_jit_opt_level with
     | Some jit_opt_level =>
         [ Set_option MDL_JIT_OPTION_OPT_LEVEL (std_to_string jit_opt_level) ]
     | None => []
     end
  ++ match registry_jit_fast_math with
     | Some jit_fast_math =>
         [ Set_option MDL_JIT_OPTION_FAST_MATH (if jit_fast_math then "true" else "false") ]
     | None => []
     end.

Section Conversion.
Variable transaction : Transaction.
Variable self : Mdl_function_call.
Variable code_dag : IGenerated_code_dag.
Variable lambda_func : ILambda_function.
Variables mdl_meters_per_scene_unit mdl_wavelength_min mdl_wavelength_max : Float32.

(** The conversion of parameter [i]: the name of the parameter and the node
    of its argument (null is [None]). *)
Definition convert_argument (i : Z) : string * option DAG_node :=
  let parameter_name := get_function_parameter_name code_dag (m_function_index self) i in
  let parameter_type := get_function_parameter_type code_dag (m_function_index self) i in
  let argument := Named_list.get_by_name (m_arguments self) parameter_name in
  (parameter_name,
   int_expr_to_mdl_dag_node transaction lambda_func parameter_type argument
     mdl_meters_per_scene_unit mdl_wavelength_min mdl_wavelength_max).

(** The loop over the parameters: [count] iterations are left, the next one
    converts parameter [i]; [None] when an argument converts to null. *)
Fixpoint convert_arguments (count : nat) (i : Z) : option (list (DAG_node * string)) :=
  match count with
  | O => Some []
  | S count' =>
      match convert_argument i with
      | (_, None) => None
      | (parameter_name, Some arg) =>
          match convert_arguments count' (i + 1) with
          | None => None
          | Some mdl_arguments => Some ((arg, parameter_name) :: mdl_arguments)
          end
      end
  end.

End Conversion.

Definition conversion_failure_message (name : string) : string :=
  "Type mismatch, call of an unsuitable DB element, or cycle in a graph rooted at the function definition "
  +:+ double_quote +:+ name +:+ double_quote +:+ ".".

(** The name of the node that selects field [f_name] of struct [s_name]. *)
Definition field_access_name (s_name f_name : string) : string :=
  s_name +:+ "." +:+ f_name +:+ "(" +:+ s_name +:+ ")".

(** The wrapping of the call when the return type is a struct.  The check of
    the return type has passed when this runs, so field 0 exists; without a
    field 0 the C++ reads uninitialised pointers, and the model leaves the
    call as it is. *)
Definition wrap_struct_result (return_type : mi_mdl.IType) (call : DAG_node) : DAG_node :=
  match as_IType_struct return_type with
  | Some s_type =>
      match get_field s_type 0 with
      | Some (f_type, f_name) =>
          create_call (field_access_name (get_symbol_name s_type) f_name)
            DS_INTRINSIC_DAG_FIELD_ACCESS [ (call, "s") ] f_type
      | None => call
      end
  | None => call
  end.

(** [Mdl_function_call::create_jitted_function]. *)
Definition create_jitted_function (transaction : Transaction) (self : Mdl_function_call)
    (environment_context : bool)
    (mdl_meters_per_scene_unit mdl_wavelength_min mdl_wavelength_max : Float32)
  : Outcome :=
  if negb jit_generator_available
  then {| jitted_func := None; errors := -1; events := [] |}
  else
    let return_type := definition_mdl_return_type transaction (m_definition_tag self) in
    if negb (return_type_is_ok return_type)
    then {| jitted_func := None; errors := -2; events := [] |}
    else
      let code_dag := module_code_dag transaction (m_module_tag self) in
      let lambda_func :=
        create_lambda_function
          (if environment_context then LEC_ENVIRONMENT else LEC_DISPLACEMENT) in
      let n_params := get_function_parameter_count code_dag (m_function_index self) in
      match convert_arguments transaction self code_dag lambda_func
              mdl_meters_per_scene_unit mdl_wavelength_min mdl_wavelength_max
              (Z.to_nat n_params) 0 with
      | None =>
          {| jitted_func := None; errors := -3;
             events := jit_option_events ++
               [ Log_error (conversion_failure_message
                   (add_mdl_db_prefix
                      (get_function_name code_dag (m_function_index self)))) ] |}
      | Some mdl_arguments =>
          let call :=
            create_call (get_function_name code_dag (m_function_index self))
              (definition_mdl_semantic transaction (m_definition_tag self))
              mdl_arguments return_type in
          let call := wrap_struct_result return_type call in
          if negb environment_context
          then
            let lambda_func := (store_root_expr lambda_func call).2 in
            let jitted_func := compile_into_switch_function transaction lambda_func 1 0 in
            {| jitted_func := jitted_func;
               errors := if jitted_func is None then -4 else 0;
               events := jit_option_events ++
                 [ Store_root_expr call;
                   Compile_into_switch_function lambda_func 1 0 ] |}
          else
            let lambda_func := set_body lambda_func call in
            let jitted_func := compile_into_environment transaction lambda_func in
            {| jitted_func := jitted_func;
               errors := if jitted_func is None then -4 else 0;
               events := jit_option_events ++
                 [ Set_body call; Compile_into_environment lambda_func ] |}
      end.

End Lowering.


(** ** Persistence codec *)

(** A serializer appends words to a buffer and a deserializer takes them from
    its front; a codec pairs the two directions for one type.  A read that
    finds the buffer too short, or not of the expected shape, has no result. *)
Record Codec (A : Type) : Type := {
  write : A -> list Z;
  read : list Z -> option (A * list Z)
}.
Arguments write {A} _ _.
Arguments read {A} _ _.

(** [c] reads back [a], whatever follows it in the buffer. *)
Definition round_trips {A : Type} (c : Codec A) (a : A) : Prop :=
  forall rest : list Z, read c (write c a ++ rest) = Some (a, rest).

(** Modelled from the spec: the overloads of [SERIAL::Serializer::write] and
    [SERIAL::Deserializer::read] for tags, 32-bit unsigned integers, booleans
    and strings are declared in [i_serializer.h]; each "writes" its value
    "in fixed order" as one word, a string as its length and its characters. *)
Definition Tag_codec : Codec Tag := {|
  write t := [ Z.of_N t ];
  read buffer :=
    match buffer with
    | w :: rest => Some (Z.to_N w, rest)
    | [] => None
    end
|}.

Definition Uint32_codec : Codec Z := {|
  write x := [ x ];
  read buffer :=
    match buffer with
    | w :: rest => Some (w, rest)
    | [] => None
    end
|}.

Definition bool_codec : Codec bool := {|
  write b := [ if b : bool then 1 else 0 ];
  read buffer :=
    match buffer with
    | w :: rest => Some (negb (w =? 0), rest)
    | [] => None
    end
|}.

Definition character_code (c : ascii) : Z := Z.of_N (N_of_ascii c).

Fixpoint read_characters (count : nat) (buffer : list Z) : option (string * list Z) :=
  match count with
  | O => Some (EmptyString, buffer)
  | S count' =>
      match buffer with
      | w :: rest =>
          match read_characters count' rest with
          | Some (s, rest') => Some (String (ascii_of_N (Z.to_N w)) s, rest')
          | None => None
          end
      | [] => None
      end
  end.

Definition string_codec : Codec string := {|
  write s := Z.of_nat (String.length s) :: (character_code <$> String.list_ascii_of_string s);
  read buffer :=
    match buffer with
    | w :: rest => read_characters (Z.to_nat w) rest
    | [] => None
    end
|}.

(** The codecs of the collaborators: the base class [Scene_element_base] with
    the state it serializes, the type factory ([serialize], [serialize_list])
    and the expression factory ([serialize_list]). *)
Class Persistence : Type := {
  Scene_element_base : Type;
  base_codec : Codec Scene_element_base;
  type_codec : Codec MDL.IType;
  type_list_codec : Codec IType_list;
  expression_list_codec : Codec IExpression_list
}.

(** The serialized object: the base class sub-object and the data members. *)
Record Scene_element `{Persistence} : Type := {
  base : Scene_element_base;
  call : Mdl_function_call
}.

Section Serialization.
Context `{Persistence}.

(** [Mdl_function_call::serialize]: the words appended to the serializer. *)
Definition serialize (this : Scene_element) : list Z :=
  let self := call this in
  write base_codec (base this)
  ++ write Tag_codec (m_module_tag self)
  ++ write Tag_codec (m_definition_tag self)
  ++ write Uint32_codec (m_function_index self)
  ++ write Uint32_codec (static_cast_Uint32 (m_mdl_semantic self))
  ++ write string_codec (m_definition_name self)
  ++ write bool_codec (m_immutable self)
  ++ write type_list_codec (m_parameter_types self)
  ++ write type_codec (m_return_type self)
  ++ write expression_list_codec (m_arguments self)
  ++ write expression_list_codec (m_enable_if_conditions self).

(** [Mdl_function_call::deserialize]: every member is overwritten, so the
    object read does not depend on the one the function is called on.  The
    source casts the word read for the semantic back into the enumeration;
    the model keeps the word as the semantic, which is that cast for the
    semantics of 32 bits, the ones the properties below are stated for. *)
Definition deserialize (buffer : list Z) : option (Scene_element * list Z) :=
  '(base, buffer) ← read base_codec buffer;
  '(module_tag, buffer) ← read Tag_codec buffer;
  '(definition_tag, buffer) ← read Tag_codec buffer;
  '(function_index, buffer) ← read Uint32_codec buffer;
  '(semantic, buffer) ← read Uint32_codec buffer;
  '(definition_name, buffer) ← read string_codec buffer;
  '(immutable, buffer) ← read bool_codec buffer;
  '(parameter_types, buffer) ← read type_list_codec buffer;
  '(return_type, buffer) ← read type_codec buffer;
  '(arguments, buffer) ← read expression_list_codec buffer;
  '(enable_if_conditions, buffer) ← read expression_list_codec buffer;
  Some ({| base := base;
           call := {| m_module_tag := module_tag;
                      m_definition_tag := definition_tag;
                      m_function_index := function_index;
                      m_mdl_semantic := semantic;
                      m_definition_name := definition_name;
                      m_immutable := immutable;
                      m_parameter_types := parameter_types;
                      m_return_type := return_type;
                      m_arguments := arguments;
                      m_enable_if_conditions := enable_if_conditions |} |},
        buffer).

End Serialization.


(** ** The specification's vocabulary

    The definitions of this part follow the words of the specification, not
    the code; the theorems below compare the two. *)

(** The binding errors and the integers the binder returns for them. *)
Inductive BindError : Type :=
  | MissingArgument
  | UnknownParameter
  | TypeMismatch
  | ImmutableNode
  | VaryingIntoUniform
  | UnsupportedExpressionKind
  | EffectivelyVarying.

Definition bind_error_code (e : BindError) : Z :=
  match e with
  | MissingArgument => -1
  | UnknownParameter => -2
  | TypeMismatch => -3
  | ImmutableNode => -4
  | VaryingIntoUniform => -5
  | UnsupportedExpressionKind => -6
  | EffectivelyVarying => -8
  end.

(** "executed in this exact order (first failing check wins)": each check is
    the condition that must hold next to the error of its failure. *)
Fixpoint first_failing_check (checks : list (bool * BindError)) : option BindError :=
  match checks with
  | [] => None
  | (holds, error) :: checks' =>
      if holds then first_failing_check checks' else Some error
  end.

Section Binder_specification.
Context `{Collaborators}.

Definition carries_qualifier (t : MDL.IType) (qualifier : Z) : bool :=
  negb (Z.land (get_all_type_modifiers t) qualifier =? 0).

Definition is_constant_or_call (e : IExpression) : bool :=
  match e with
  | Expression_constant _ _ | Expression_call _ _ => true
  | _ => false
  end.

(** Checks 3 to 7 of [bind_one], once the argument and the expected type of
    its parameter are at hand. *)
Definition bind_one_checks (transaction : Transaction) (self : Mdl_function_call)
    (argument : IExpression) (expected_type : MDL.IType) : list (bool * BindError) :=
  [ (argument_type_matches_parameter_type (MDL.get_type argument) expected_type,
     TypeMismatch);
    (negb (m_immutable self), ImmutableNode);
    (negb (carries_qualifier (MDL.get_type argument) MK_VARYING
           && carries_qualifier expected_type MK_UNIFORM),
     VaryingIntoUniform);
    (is_constant_or_call argument, UnsupportedExpressionKind);
    (negb (carries_qualifier expected_type MK_UNIFORM
           && return_type_is_varying transaction argument),
     EffectivelyVarying) ].

(** The pipeline of [bind_one]: the error of the first failing check, or
    none. *)
Definition bind_one_verdict (transaction : Transaction) (self : Mdl_function_call)
    (index : Z) (argument : option IExpression) : option BindError :=
  match argument with
  | None => Some MissingArgument
  | Some argument =>
      match Named_list.get (m_parameter_types self) index with
      | None => Some UnknownParameter
      | Some expected_type =>
          first_failing_check (bind_one_checks transaction self argument expected_type)
      end
  end.

Definition verdict_code (verdict : option BindError) : Z :=
  match verdict with
  | Some e => bind_error_code e
  | None => 0
  end.

(** [bind_all] applies [bind_one] "for every entry", entry after entry, and
    "on the first failure it returns that error". *)
Fixpoint bind_all (transaction : Transaction) (self : Mdl_function_call)
    (entries : list (string * IExpression)) : Z * Mdl_function_call :=
  match entries with
  | [] => (0, self)
  | (name, argument) :: entries' =>
      let '(result, self') :=
        set_argument_by_name transaction self (Some name) (Some argument) in
      if result =? 0 then bind_all transaction self' entries' else (result, self')
  end.

End Binder_specification.

(** The invariant of the data model: "arguments.size() ==
    parameter_types.size()". *)
Definition sizes_agree (self : Mdl_function_call) : Prop :=
  length (m_arguments self) = length (m_parameter_types self).

(** The size of a list is a value of [mi::Size], and
    [static_cast<mi::Size>(-1)] is no index into it. *)
Definition fits_Size {A : Type} (l : list A) : Prop :=
  Z.of_nat (length l) <= Size_none.

(** The return shapes that lowering accepts: the primitive color type, or
    the "two-field aggregate type whose fields are exactly (color, scalar)"
    and "whose declared type name matches a single recognized legacy name".
    Aliases are looked through, as the code does with every type it tests. *)
Definition is_color (t : mi_mdl.IType) : Prop :=
  get_kind (skip_type_alias t) = TK_COLOR.

Definition is_float (t : mi_mdl.IType) : Prop :=
  get_kind (skip_type_alias t) = TK_FLOAT.

Definition legacy_name : string := "::base::texture_return".

Definition legacy_shape (t : mi_mdl.IType) : Prop :=
  exists c_type c_name f_type f_name,
    skip_type_alias t = Type_struct legacy_name [ (c_type, c_name); (f_type, f_name) ]
    /\ is_color c_type /\ is_float f_type.

Definition accepted_return_shape (t : mi_mdl.IType) : Prop :=
  is_color t \/ legacy_shape t.


(** ** A conversion that detects cycles *)

(** Modelled from the spec: [int_expr_to_mdl_dag_node] is defined in
    [mdl_elements_utilities.cpp].  An argument "is itself either a constant
    value or a nested call node reference"; "nested call arguments are weak
    references resolved through the external store"; the conversion fails
    when it "would require traversing a reference cycle in the argument
    graph".  [store] is the external store, [call_trace] the tags of the calls
    under conversion, and [fuel] bounds the depth of the recursion. *)
Fixpoint convert_expression (return_type_of : Tag -> mi_mdl.IType)
    (store : gmap N Mdl_function_call) (fuel : nat) (call_trace : gset N)
    (e : IExpression) : option DAG_node :=
  match fuel with
  | O => None
  | S fuel' =>
      match e with
      | Expression_constant _ value => Some (DAG_constant value)
      | Expression_call _ tag =>
          if decide (tag ∈ call_trace) then None
          else
            callee ← store !! tag;
            arguments ←
              mapM (fun entry : string * IExpression =>
                      node ← convert_expression return_type_of store fuel'
                               ({[ tag ]} ∪ call_trace) entry.2;
                      Some (node, entry.1))
                   (m_arguments callee);
            Some (DAG_call (m_definition_name callee) (m_mdl_semantic callee)
                    arguments (return_type_of (m_definition_tag callee)))
      | _ => None
      end
  end.

(** Node [t] binds an argument that is a call of node [u]. *)
Definition references (store : gmap N Mdl_function_call) (t u : Tag) : Prop :=
  exists callee name type,
    store !! t = Some callee
    /\ (name, Expression_call type u) ∈ m_arguments callee.

(** "node X's argument resolves, transitively, back to X", for some X that
    [t] reaches. *)
Definition reaches_cycle (store : gmap N Mdl_function_call) (t : Tag) : Prop :=
  exists u, rtc (references store) t u /\ tc (references store) u u.

(** ** Small instances, to run the definitions *)

Definition plain_types_match (a p : MDL.IType) : bool :=
  match skip_all_type_aliases a, skip_all_type_aliases p with
  | Type_plain MDL.TK_BOOL, Type_plain MDL.TK_BOOL
  | Type_plain MDL.TK_INT, Type_plain MDL.TK_INT
  | Type_plain MDL.TK_FLOAT, Type_plain MDL.TK_FLOAT
  | Type_plain MDL.TK_DOUBLE, Type_plain MDL.TK_DOUBLE
  | Type_plain MDL.TK_STRING, Type_plain MDL.TK_STRING
  | Type_plain MDL.TK_COLOR, Type_plain MDL.TK_COLOR => true
  | _, _ => false
  end.

Definition called_tags (list : IExpression_list) : gset N :=
  foldr (fun entry acc =>
           match entry.2 with
           | Expression_call _ tag => {[ tag ]} ∪ acc
           | _ => acc
           end) ∅ list.

(** Types match when they are the same plain type under their aliases; the
    calls with an odd tag return a varying result; a clone is the same
    value; a list references the calls it binds. *)
Definition sample_collaborators : Collaborators := {|
  Transaction := unit;
  argument_type_matches_parameter_type := plain_types_match;
  return_type_is_varying _ e :=
    match e with
    | Expression_call _ tag => N.odd tag
    | _ => false
    end;
  clone e := e;
  expression_list_references := called_tags
|}.

(** The example of the specification: [f(a: uniform float, b: varying float)
    -> color], bound to two constants. *)
Definition plain_float : MDL.IType := Type_plain MDL.TK_FLOAT.
Definition uniform_float : MDL.IType := MDL.Type_alias plain_float MK_UNIFORM.
Definition varying_float : MDL.IType := MDL.Type_alias plain_float MK_VARYING.
Definition float_constant (bits : Z) : IExpression :=
  Expression_constant plain_float (Value_bits [ bits ]).
Definition int_constant (i : Z) : IExpression :=
  Expression_constant (Type_plain MDL.TK_INT) (Value_int i).

Definition sample_call : Mdl_function_call := {|
  m_module_tag := 7%N;
  m_definition_tag := 9%N;
  m_function_index := 0;
  m_mdl_semantic := 0;
  m_definition_name := "mdl::f(float,float)";
  m_immutable := false;
  m_parameter_types := [ ("a", uniform_float); ("b", varying_float) ];
  m_return_type := Type_plain MDL.TK_COLOR;
  m_arguments := [ ("a", float_constant 0); ("b", float_constant 0) ];
  m_enable_if_conditions := []
|}.

(** The same node as a default of its module: immutable. *)
Definition sample_default : Mdl_function_call := {|
  m_module_tag := 7%N;
  m_definition_tag := 9%N;
  m_function_index := 0;
  m_mdl_semantic := 0;
  m_definition_name := "mdl::f(float,float)";
  m_immutable := true;
  m_parameter_types := [ ("a", uniform_float); ("b", varying_float) ];
  m_return_type := Type_plain MDL.TK_COLOR;
  m_arguments := [ ("a", float_constant 0); ("b", float_constant 0) ];
  m_enable_if_conditions := []
|}.


Definition sample_call_after_b : Mdl_function_call :=
  with_arguments sample_call
    [ ("a", float_constant 0); ("b", float_constant 1065353216) ].

(** A node whose first argument is the call with tag 12. *)
Definition sample_call_with_call : Mdl_function_call :=
  with_arguments sample_call
    [ ("a", Expression_call plain_float 12%N); ("b", float_constant 0) ].

(** Codecs for the sample instance: a type is written from its outermost
    alias inwards, a list as its size and its named entries.  Direct calls
    are outside of what the sample reader accepts. *)
Definition Type_kind_code (k : MDL.Type_kind) : Z :=
  match k with
  | MDL.TK_ALIAS => 0 | MDL.TK_BOOL => 1 | MDL.TK_INT => 2 | MDL.TK_FLOAT => 3
  | MDL.TK_DOUBLE => 4 | MDL.TK_STRING => 5 | MDL.TK_COLOR => 6
  | MDL.TK_COMPOUND => 7
  end.

Definition Type_kind_of_code (w : Z) : option MDL.Type_kind :=
  match w with
  | 0 => Some MDL.TK_ALIAS | 1 => Some MDL.TK_BOOL | 2 => Some MDL.TK_INT
  | 3 => Some MDL.TK_FLOAT | 4 => Some MDL.TK_DOUBLE | 5 => Some MDL.TK_STRING
  | 6 => Some MDL.TK_COLOR | 7 => Some MDL.TK_COMPOUND
  | _ => None
  end.

Fixpoint write_type (t : MDL.IType) : list Z :=
  match t with
  | MDL.Type_alias aliased modifiers => 0 :: modifiers :: write_type aliased
  | Type_plain kind => [ 1 + Type_kind_code kind ]
  end.

Fixpoint read_type (buffer : list Z) : option (MDL.IType * list Z) :=
  match buffer with
  | [] => None
  | w :: rest =>
      if w =? 0
      then
        match rest with
        | modifiers :: rest' =>
            match read_type rest' with
            | Some (aliased, rest'') => Some (MDL.Type_alias aliased modifiers, rest'')
            | None => None
            end
        | [] => None
        end
      else
        match Type_kind_of_code (w - 1) with
        | Some kind => Some (Type_plain kind, rest)
        | None => None
        end
  end.

Definition sample_type_codec : Codec MDL.IType :=
  {| write := write_type; read := read_type |}.

Definition sample_value_codec : Codec IValue := {|
  write v :=
    match v with
    | Value_bool b => 0 :: write bool_codec b
    | Value_int i => [ 1; i ]
    | Value_string s => 2 :: write string_codec s
    | Value_bits bits => 3 :: Z.of_nat (length bits) :: bits
    end;
  read buffer :=
    match buffer with
    | 0 :: rest => '(b, rest') ← read bool_codec rest; Some (Value_bool b, rest')
    | 1 :: i :: rest => Some (Value_int i, rest)
    | 2 :: rest => '(s, rest') ← read string_codec rest; Some (Value_string s, rest')
    | 3 :: n :: rest =>
        if Nat.leb (Z.to_nat n) (length rest)
        then Some (Value_bits (take (Z.to_nat n) rest), drop (Z.to_nat n) rest)
        else None
    | _ => None
    end
|}.

Definition sample_expression_codec : Codec IExpression := {|
  write e :=
    match e with
    | Expression_constant t v => 0 :: write_type t ++ write sample_value_codec v
    | Expression_call t tag => 1 :: write_type t ++ write Tag_codec tag
    | Expression_parameter t i => 2 :: write_type t ++ [ i ]
    | Expression_direct_call _ _ _ => [ 3 ]
    | Expression_temporary t i => 4 :: write_type t ++ [ i ]
    end;
  read buffer :=
    match buffer with
    | 0 :: rest =>
        '(t, rest) ← read_type rest;
        '(v, rest) ← read sample_value_codec rest;
        Some (Expression_constant t v, rest)
    | 1 :: rest =>
        '(t, rest) ← read_type rest;
        '(tag, rest) ← read Tag_codec rest;
        Some (Expression_call t tag, rest)
    | 2 :: rest =>
        '(t, rest) ← read_type rest;
        '(i, rest) ← read Uint32_codec rest;
        Some (Expression_parameter t i, rest)
    | 4 :: rest =>
        '(t, rest) ← read_type rest;
        '(i, rest) ← read Uint32_codec rest;
        Some (Expression_temporary t i, rest)
    | _ => None
    end
|}.

(** A named list: its size, then each name with its entry. *)
Fixpoint read_entries {A : Type} (c : Codec A) (count : nat) (buffer : list Z)
  : option (list (string * A) * list Z) :=
  match count with
  | O => Some ([], buffer)
  | S count' =>
      '(name, buffer) ← read string_codec buffer;
      '(x, buffer) ← read c buffer;
      '(entries, buffer) ← read_entries c count' buffer;
      Some ((name, x) :: entries, buffer)
  end.

Definition named_list_codec {A : Type} (c : Codec A) : Codec (list (string * A)) := {|
  write l :=
    Z.of_nat (length l)
    :: concat ((fun entry => write string_codec entry.1 ++ write c entry.2) <$> l);
  read buffer :=
    match buffer with
    | w :: rest => read_entries c (Z.to_nat w) rest
    | [] => None
    end
|}.

Definition sample_persistence : Persistence := {|
  Scene_element_base := unit;
  base_codec := {| write _ := []; read buffer := Some (tt, buffer) |};
  type_codec := sample_type_codec;
  type_list_codec := named_list_codec sample_type_codec;
  expression_list_codec := named_list_codec sample_expression_codec
|}.

Definition sample_element : @Scene_element sample_persistence :=
  @Build_Scene_element sample_persistence tt sample_call_with_call.

(** A mutable node of module 7 for the function [f], with its definition and
    its arguments left open. *)
Definition sample_node (definition_tag : Tag) (arguments : IExpression_list)
  : Mdl_function_call := {|
  m_module_tag := 7%N;
  m_definition_tag := definition_tag;
  m_function_index := 0;
  m_mdl_semantic := 0;
  m_definition_name := "mdl::f(float,float)";
  m_immutable := false;
  m_parameter_types := [ ("a", uniform_float); ("b", varying_float) ];
  m_return_type := Type_plain MDL.TK_COLOR;
  m_arguments := arguments;
  m_enable_if_conditions := []
|}.

(** The struct type [::base::texture_return]. *)
Definition texture_return : mi_mdl.IType :=
  Type_struct "::base::texture_return" [ (Type_color, "tint"); (Type_float, "mono") ].

(** Definition 9 returns a color, definition 10 the legacy struct (behind an
    alias), definition 11 a float. *)
Definition sample_return_types (definition_tag : Tag) : mi_mdl.IType :=
  match definition_tag with
  | 9%N => Type_color
  | 10%N => mi_mdl.Type_alias texture_return
  | 11%N => Type_float
  | _ => Type_other
  end.

(** The calls 20 and 21 bind each other as their argument [a]; the call 22
    binds constants. *)
Definition sample_store : gmap N Mdl_function_call :=
  {[ 20%N := sample_node 9 [ ("a", Expression_call plain_float 21%N);
                             ("b", float_constant 0) ];
     21%N := sample_node 9 [ ("a", Expression_call plain_float 20%N);
                             ("b", float_constant 0) ];
     22%N := sample_node 9 [ ("a", float_constant 0); ("b", float_constant 0) ] ]}.

(** The code DAG of module 7: every function is [f], with the float
    parameters [a] and [b]. *)
Definition sample_code_dag : IGenerated_code_dag := {|
  get_function_parameter_count _ := 2;
  get_function_parameter_name _ i := if i =? 0 then "a" else "b";
  get_function_parameter_type _ _ := Type_float;
  get_function_name _ := "::f(float,float)"
|}.

(** A world with a generator, where an argument converts by
    [convert_expression] over the sample store, a compilation answers the
    lambda function it was given, and the enumerator of the field access is
    taken to be 768. *)
Definition sample_world : @Lowering_world sample_collaborators := {|
  Float32 := Z;
  IGenerated_code_lambda_function := ILambda_function;
  DS_INTRINSIC_DAG_FIELD_ACCESS := 768;
  jit_generator_available := true;
  definition_mdl_return_type _ definition_tag := sample_return_types definition_tag;
  definition_mdl_semantic _ _ := 0;
  module_code_dag _ _ := sample_code_dag;
  registry_jit_opt_level := Some 2;
  registry_jit_fast_math := None;
  int_expr_to_mdl_dag_node _ _ _ argument _ _ _ :=
    argument ≫= convert_expression sample_return_types sample_store 8 ∅;
  add_mdl_db_prefix name := "mdl" +:+ name;
  compile_into_switch_function _ lambda _ _ := Some lambda;
  compile_into_environment _ lambda := Some lambda
|}.

Definition sample_lower (self : Mdl_function_call) (environment_context : bool)
  : @Outcome sample_collaborators sample_world :=
  @create_jitted_function sample_collaborators sample_world tt self
    environment_context 0 0 0.

(** The DAG call node of the sample node, and the lambda function that holds
    it as its root expression. *)
Definition sample_call_node : DAG_node :=
  DAG_call "::f(float,float)" 0
    [ (DAG_constant (Value_bits [ 0 ]), "a");
      (DAG_constant (Value_bits [ 0 ]), "b") ] Type_color.

Definition sample_call_lambda : ILambda_function :=
  {| lambda_context := LEC_DISPLACEMENT;
     lambda_roots := [ sample_call_node ];
     lambda_body := None |}.

(** The call 20 of the sample store: its argument [a] is the call 21, whose
    argument [a] is the call 20 again. *)
Definition sample_cyclic_call : Mdl_function_call :=
  sample_node 9 [ ("a", Expression_call plain_float 21%N); ("b", float_constant 0) ].

(** A node of definition 10, which returns [::base::texture_return]. *)
Definition sample_texture_call : Mdl_function_call :=
  sample_node 10 [ ("a", float_constant 0); ("b", float_constant 0) ].

Definition sample_texture_node : DAG_node :=
  DAG_call "::base::texture_return.tint(::base::texture_return)" 768
    [ (DAG_call "::f(float,float)" 0
         [ (DAG_constant (Value_bits [ 0 ]), "a");
           (DAG_constant (Value_bits [ 0 ]), "b") ]
         (mi_mdl.Type_alias texture_return),
       "s") ]
    Type_color.


(** ** Vocabulary of the further properties *)

(** Two nodes with the same members apart from the expressions bound to the
    parameters: the same tags, function, semantic, name, flag, types and
    conditions, and the same parameter names in the same order. *)
Definition same_signature (self self' : Mdl_function_call) : Prop :=
  m_module_tag self' = m_module_tag self
  /\ m_definition_tag self' = m_definition_tag self
  /\ m_function_index self' = m_function_index self
  /\ m_mdl_semantic self' = m_mdl_semantic self
  /\ m_definition_name self' = m_definition_name self
  /\ m_immutable self' = m_immutable self
  /\ m_parameter_types self' = m_parameter_types self
  /\ m_return_type self' = m_return_type self
  /\ m_enable_if_conditions self' = m_enable_if_conditions self
  /\ (m_arguments self').*1 = (m_arguments self).*1.

(** The integers that [set_argument] can return. *)
Definition set_argument_codes : list Z := [ 0; -1; -2; -3; -4; -5; -6; -8 ].


(** The integers that [create_jitted_function] can leave in [*errors]. *)
Definition create_jitted_function_codes : list Z := [ 0; -1; -2; -3; -4 ].

Definition is_log_event `{Lowering_world} (e : Event) : bool :=
  match e with
  | Log_error _ => true
  | _ => false
  end.

Section Lowering_vocabulary.
Context `{Lowering_world}.
Variable transaction : Transaction.
Variable self : Mdl_function_call.
Variable environment_context : bool.
Variables mdl_meters_per_scene_unit mdl_wavelength_min mdl_wavelength_max : Float32.

(** The lambda function that [create_jitted_function] creates. *)
Definition fresh_lambda : ILambda_function :=
  create_lambda_function
    (if environment_context then LEC_ENVIRONMENT else LEC_DISPLACEMENT).

(** The arguments of all parameters of the function in the code DAG of the
    node's module, converted in the loop of [create_jitted_function]. *)
Definition converted_arguments : option (list (DAG_node * string)) :=
  let code_dag := module_code_dag transaction (m_module_tag self) in
  convert_arguments transaction self code_dag fresh_lambda
    mdl_meters_per_scene_unit mdl_wavelength_min mdl_wavelength_max
    (Z.to_nat (get_function_parameter_count code_dag (m_function_index self))) 0.

(** The call node that [create_jitted_function] builds from the converted
    arguments, before the wrapping of a struct result. *)
Definition lowered_call (mdl_arguments : list (DAG_node * string)) : DAG_node :=
  create_call
    (get_function_name (module_code_dag transaction (m_module_tag self))
       (m_function_index self))
    (definition_mdl_semantic transaction (m_definition_tag self))
    mdl_arguments
    (definition_mdl_return_type transaction (m_definition_tag self)).

(** The node that the lambda function receives. *)
Definition lowered_node (mdl_arguments : list (DAG_node * string)) : DAG_node :=
  wrap_struct_result
    (definition_mdl_return_type transaction (m_definition_tag self))
    (lowered_call mdl_arguments).

(** The lambda function with the node attached, as the compiler gets it. *)
Definition lowered_lambda (mdl_arguments : list (DAG_node * string))
  : ILambda_function :=
  if environment_context
  then set_body fresh_lambda (lowered_node mdl_arguments)
  else (store_root_expr fresh_lambda (lowered_node mdl_arguments)).2.

(** The compile entry point of the context, on that lambda function. *)
Definition compile_lowered (mdl_arguments : list (DAG_node * string))
  : option IGenerated_code_lambda_function :=
  if environment_context
  then compile_into_environment transaction (lowered_lambda mdl_arguments)
  else compile_into_switch_function transaction (lowered_lambda mdl_arguments) 1 0.

End Lowering_vocabulary.

(** A node with another semantic. *)
Definition with_semantic (self : Mdl_function_call) (semantic : Semantics)
  : Mdl_function_call :=
  {| m_module_tag := m_module_tag self;
     m_definition_tag := m_definition_tag self;
     m_function_index := m_function_index self;
     m_mdl_semantic := semantic;
     m_definition_name := m_definition_name self;
     m_immutable := m_immutable self;
     m_parameter_types := m_parameter_types self;
     m_return_type := m_return_type self;
     m_arguments := m_arguments self;
     m_enable_if_conditions := m_enable_if_conditions self |}.


(** The codecs of the collaborators read back the members of [this]. *)
Definition members_round_trip `{Persistence} (this : Scene_element) : Prop :=
  round_trips base_codec (base this)
  /\ round_trips type_list_codec (m_parameter_types (call this))
  /\ round_trips type_codec (m_return_type (call this))
  /\ round_trips expression_list_codec (m_arguments (call this))
  /\ round_trips expression_list_codec (m_enable_if_conditions (call this)).


(** The sample node with its arguments in the other order. *)
Definition sample_call_swapped : Mdl_function_call :=
  with_arguments sample_call [ ("b", float_constant 0); ("a", float_constant 0) ].

(** The sample node after a binding of [a]. *)
Definition sample_call_after_a : Mdl_function_call :=
  with_arguments sample_call
    [ ("a", float_constant 1065353216); ("b", float_constant 0) ].


(** * Properties *)

(** ** Named lists *)

Section Named_list_facts.
Context {A : Type}.
Implicit Types (l : list (string * A)) (x : A) (name : string).

Lemma in_range_true l (i : Z) :
  Named_list.in_range l i = true <-> 0 <= i < Z.of_nat (length l).
Proof. unfold Named_list.in_range, Named_list.get_size. lia. Qed.

Lemma in_range_Size_none l :
  fits_Size l -> Named_list.in_range l Size_none = false.
Proof.
  unfold fits_Size. intros Hfit.
  destruct (Named_list.in_range l Size_none) eqn:Hin; [|done].
  apply in_range_true in Hin. lia.
Qed.

Lemma get_Some_in_range l (i : Z) x :
  Named_list.get l i = Some x -> Named_list.in_range l i = true.
Proof.
  unfold Named_list.get, Named_list.get_entry.
  by destruct (Named_list.in_range l i).
Qed.

Lemma in_range_alter l (f : string * A -> string * A) (n : nat) (i : Z) :
  Named_list.in_range (alter f n l) i = Named_list.in_range l i.
Proof. unfold Named_list.in_range, Named_list.get_size. by rewrite length_alter. Qed.

Lemma set_result l (i : Z) x :
  (Named_list.set l i x).2 =
  if Named_list.in_range l i then alter (Named_list.rebind x) (Z.to_nat i) l else l.
Proof. unfold Named_list.set. by destruct (Named_list.in_range l i). Qed.

Lemma in_range_set l (i j : Z) x :
  Named_list.in_range (Named_list.set l i x).2 j = Named_list.in_range l j.
Proof.
  rewrite set_result. destruct (Named_list.in_range l i); [|done].
  apply in_range_alter.
Qed.

Lemma length_set l (i : Z) x : length (Named_list.set l i x).2 = length l.
Proof.
  rewrite set_result. destruct (Named_list.in_range l i); [|done].
  apply length_alter.
Qed.

(** The slot of the index holds the new value. *)
Lemma get_set_eq l (i : Z) x :
  Named_list.in_range l i = true ->
  Named_list.get (Named_list.set l i x).2 i = Some x.
Proof.
  intros Hin. unfold Named_list.get, Named_list.get_entry.
  rewrite in_range_set, Hin, set_result, Hin, list_lookup_alter_eq.
  apply in_range_true in Hin.
  destruct (lookup_lt_is_Some_2 l (Z.to_nat i)) as [entry ->]; [lia|done].
Qed.

(** Every other slot keeps its value. *)
Lemma get_set_ne l (i j : Z) x :
  i <> j -> Named_list.get (Named_list.set l i x).2 j = Named_list.get l j.
Proof.
  intros Hne. unfold Named_list.get, Named_list.get_entry.
  rewrite in_range_set, set_result.
  destruct (Named_list.in_range l i) eqn:Hi; [|done].
  destruct (Named_list.in_range l j) eqn:Hj; [|done].
  apply in_range_true in Hi, Hj.
  rewrite list_lookup_alter_ne; [done|lia].
Qed.

(** No slot changes its name. *)
Lemma names_alter l (n : nat) x : (alter (Named_list.rebind x) n l).*1 = l.*1.
Proof.
  revert n. induction l as [|[n0 x0] l IH]; intros [|n]; try done.
  change ((n0 :: (alter (Named_list.rebind x) n l).*1) = n0 :: l.*1).
  by rewrite IH.
Qed.

Lemma names_set l (i : Z) x : (Named_list.set l i x).2.*1 = l.*1.
Proof.
  rewrite set_result. destruct (Named_list.in_range l i); [|done].
  apply names_alter.
Qed.

Lemma find_name_names l l' name :
  l.*1 = l'.*1 -> Named_list.find_name name l = Named_list.find_name name l'.
Proof.
  revert l'. induction l as [|[n0 x0] l IH]; intros [|[n1 x1] l']; simpl; try done.
  intros [= -> Hrest]. by rewrite (IH l' Hrest).
Qed.

Lemma get_index_set l (i : Z) x name :
  Named_list.get_index (Named_list.set l i x).2 name = Named_list.get_index l name.
Proof.
  unfold Named_list.get_index.
  by rewrite (find_name_names _ l name (names_set l i x)).
Qed.

Lemma find_name_Some l name (n : nat) :
  Named_list.find_name name l = Some n -> exists x, l !! n = Some (name, x).
Proof.
  revert n. induction l as [|[n0 x0] l IH]; intros n; simpl; [done|].
  destruct (String.eqb n0 name) eqn:Heq.
  - apply String.eqb_eq in Heq as ->. intros [= <-]. by exists x0.
  - destruct (Named_list.find_name name l) as [m|]; simpl; [|done].
    intros [= <-]. by apply IH.
Qed.

Lemma find_name_None l name :
  Named_list.find_name name l = None -> name ∉ l.*1.
Proof.
  induction l as [|[n0 x0] l IH]; simpl; [intros _; apply not_elem_of_nil|].
  destruct (String.eqb n0 name) eqn:Heq; [done|].
  apply String.eqb_neq in Heq.
  destruct (Named_list.find_name name l); simpl; [done|].
  intros _. rewrite not_elem_of_cons. split; [done|by apply IH].
Qed.

(** With unique names, the index of a name is the position of its entry. *)
Lemma find_name_NoDup l name (n : nat) x :
  NoDup l.*1 -> l !! n = Some (name, x) -> Named_list.find_name name l = Some n.
Proof.
  revert n. induction l as [|[n0 x0] l IH]; intros n Hnd Hn; simpl; [done|].
  apply NoDup_cons in Hnd as [Hnotin Hnd].
  destruct n as [|n]; simpl in Hn.
  - injection Hn as -> ->. by rewrite String.eqb_refl.
  - destruct (String.eqb n0 name) eqn:Heq.
    + apply String.eqb_eq in Heq as ->. exfalso. apply Hnotin.
      apply list_elem_of_fmap. exists (name, x). split; [done|].
      by apply list_elem_of_lookup_2 with n.
    + by rewrite (IH n Hnd Hn).
Qed.

Lemma get_index_found l name (n : nat) :
  Named_list.find_name name l = Some n ->
  Named_list.get_index l name = Z.of_nat n
  /\ Named_list.in_range l (Z.of_nat n) = true.
Proof.
  intros Hfind. unfold Named_list.get_index. rewrite Hfind. split; [done|].
  apply find_name_Some in Hfind as [x Hx]. apply lookup_lt_Some in Hx.
  apply in_range_true. lia.
Qed.

Lemma get_of_lookup l (n : nat) name x :
  l !! n = Some (name, x) ->
  Named_list.get_name l (Z.of_nat n) = Some name
  /\ Named_list.get l (Z.of_nat n) = Some x.
Proof.
  intros Hn. pose proof (lookup_lt_Some _ _ _ Hn) as Hlt.
  unfold Named_list.get_name, Named_list.get, Named_list.get_entry.
  replace (Named_list.in_range l (Z.of_nat n)) with true
    by (symmetry; apply in_range_true; lia).
  by rewrite Nat2Z.id, Hn.
Qed.

End Named_list_facts.

(** ** Argument binder *)

(** Every result of [set_argument] on the sample node: a null argument; an
    index past the parameters; an integer for the float [a]; the immutable
    default; a varying float for the uniform [a]; a parameter reference; the
    call 13, which returns a varying result, for the uniform [a]; and a
    constant for [a], which is bound. *)
Example set_argument_results :
  let bind := @set_argument sample_collaborators tt in
  (bind sample_call 0 None).1 = -1
  /\ (bind sample_call 2 (Some (float_constant 0))).1 = -2
  /\ (bind sample_call 0 (Some (int_constant 1))).1 = -3
  /\ (bind sample_default 0 (Some (float_constant 0))).1 = -4
  /\ (bind sample_call 0
        (Some (Expression_constant varying_float (Value_bits [ 0 ])))).1 = -5
  /\ (bind sample_call 0 (Some (Expression_parameter plain_float 0))).1 = -6
  /\ (bind sample_call 0 (Some (Expression_call plain_float 13%N))).1 = -8
  /\ bind sample_call 0 (Some (float_constant 1065353216))
     = (0, with_arguments sample_call
             [ ("a", float_constant 1065353216); ("b", float_constant 0) ]).
Proof. repeat split. Qed.

(** A list whose entries all bind leaves them all bound. *)
Example set_arguments_all_bound :
  @set_arguments sample_collaborators tt sample_call
    (Some [ ("b", float_constant 1065353216); ("a", float_constant 1073741824) ])
  = (0, with_arguments sample_call
          [ ("a", float_constant 1073741824); ("b", float_constant 1065353216) ]).
Proof. reflexivity. Qed.

Section Binder_facts.
Context `{Collaborators}.
Implicit Types (transaction : Transaction) (self : Mdl_function_call).

Lemma kind_test_is_constant_or_call (e : IExpression) :
  negb (Expression_kind_eqb (MDL.get_kind e) EK_CONSTANT)
  && negb (Expression_kind_eqb (MDL.get_kind e) EK_CALL)
  = negb (is_constant_or_call e).
Proof. by destruct e. Qed.

(** The integer returned by [set_argument] is the code of the first failing
    check of the pipeline, and 0 when every check holds. *)
Lemma set_argument_code transaction self index argument :
  (set_argument transaction self index argument).1
  = verdict_code (bind_one_verdict transaction self index argument).
Proof.
  unfold set_argument, bind_one_verdict.
  destruct argument as [a|]; [|done].
  destruct (Named_list.get (m_parameter_types self) index) as [expected|]; [|done].
  unfold bind_one_checks, first_failing_check, carries_qualifier, has_modifier.
  rewrite kind_test_is_constant_or_call.
  destruct (argument_type_matches_parameter_type _ _); [|done].
  destruct (m_immutable self); [done|]. simpl negb.
  destruct (_ && _); [done|]. simpl negb.
  destruct (is_constant_or_call a); [|done]. simpl negb.
  by destruct (_ && _).
Qed.

(** A call that returns 0 stored the clone; any other call changed nothing. *)
Lemma set_argument_state transaction self index argument :
  (set_argument transaction self index argument).2 =
  match argument, (set_argument transaction self index argument).1 with
  | Some a, 0 =>
      with_arguments self (Named_list.set (m_arguments self) index (clone a)).2
  | _, _ => self
  end.
Proof.
  unfold set_argument.
  destruct argument as [a|]; [|done].
  destruct (Named_list.get (m_parameter_types self) index) as [expected|]; [|done].
  destruct (argument_type_matches_parameter_type _ _); [|done].
  destruct (m_immutable self); [done|]. simpl negb.
  destruct (_ && _); [done|].
  destruct (_ && _); [done|].
  by destruct (_ && _).
Qed.

Lemma set_argument_ok_resolves transaction self index argument :
  (set_argument transaction self index argument).1 = 0 ->
  Named_list.in_range (m_parameter_types self) index = true.
Proof.
  unfold set_argument.
  destruct argument as [a|]; [|done].
  destruct (Named_list.get (m_parameter_types self) index) as [expected|] eqn:Hget;
    [|done].
  intros _. by apply get_Some_in_range in Hget.
Qed.

End Binder_facts.

Section Binder_claims.
Context `{Collaborators}.
Implicit Types (transaction : Transaction) (self : Mdl_function_call).

(** C1.  [set_argument] by index runs the checks of [bind_one] in the order
    of the specification and the first failing check decides the result:
    null argument, -1; index that resolves to no declared parameter, -2;
    incompatible type, -3; immutable node, -4; varying argument type into a
    uniform parameter type, -5; expression kind neither constant nor call,
    -6; uniform parameter with an effectively varying argument, -8.  When
    every check holds, 0 is returned and the clone of the argument is stored
    at the slot of the index, in place of the previous binding: on a node
    whose argument and parameter lists have the same size that slot then
    reads as the clone, and every other slot and every name is as before. *)
Theorem set_argument_runs_bind_one_pipeline transaction self index argument :
  let outcome := set_argument transaction self index argument in
  outcome.1 = verdict_code (bind_one_verdict transaction self index argument)
  /\ (bind_one_verdict transaction self index argument = None ->
      exists a,
        argument = Some a
        /\ outcome.1 = 0
        /\ outcome.2 =
             with_arguments self
               (Named_list.set (m_arguments self) index (clone a)).2
        /\ (sizes_agree self ->
            Named_list.get (m_arguments outcome.2) index = Some (clone a))
        /\ (forall j, j <> index ->
            Named_list.get (m_arguments outcome.2) j
            = Named_list.get (m_arguments self) j)
        /\ (m_arguments outcome.2).*1 = (m_arguments self).*1).
Proof.
  intros outcome. subst outcome. split; [apply set_argument_code|].
  intros Hverdict.
  pose proof (set_argument_code transaction self index argument) as Hcode.
  pose proof (set_argument_state transaction self index argument) as Hstate.
  pose proof (set_argument_ok_resolves transaction self index argument) as Hres.
  rewrite Hverdict in Hcode. simpl in Hcode. specialize (Hres Hcode).
  destruct argument as [a|]; [|done].
  rewrite Hcode in Hstate.
  exists a. rewrite Hstate. simpl. repeat split; try done.
  - intros Hsizes. apply get_set_eq.
    apply in_range_true. apply in_range_true in Hres.
    unfold sizes_agree in Hsizes. lia.
  - intros j Hj. by apply get_set_ne.
  - apply names_set.
Qed.

(** C2, as the code has it.  On an immutable node, a non-null argument whose
    index resolves to a declared parameter and whose type is compatible with
    the type of that parameter is refused with -4 (ImmutableNode).  The flag
    is looked at after the parameter is resolved and the types are compared:
    an index that resolves to no parameter is still refused with -2
    (UnknownParameter), and a type that is not compatible with -3
    (TypeMismatch).  The node is left as it was in each of the three cases. *)
Theorem set_argument_immutable_after_type_check transaction self index a :
  m_immutable self = true ->
  (Named_list.get (m_parameter_types self) index = None ->
   set_argument transaction self index (Some a)
   = (bind_error_code UnknownParameter, self)
   /\ bind_error_code UnknownParameter = -2)
  /\ (forall expected_type,
        Named_list.get (m_parameter_types self) index = Some expected_type ->
        argument_type_matches_parameter_type (MDL.get_type a) expected_type = false ->
        set_argument transaction self index (Some a)
        = (bind_error_code TypeMismatch, self)
        /\ bind_error_code TypeMismatch = -3)
  /\ (forall expected_type,
        Named_list.get (m_parameter_types self) index = Some expected_type ->
        argument_type_matches_parameter_type (MDL.get_type a) expected_type = true ->
        set_argument transaction self index (Some a)
        = (bind_error_code ImmutableNode, self)
        /\ bind_error_code ImmutableNode = -4).
Proof.
  intros Himmutable. unfold set_argument. split; [|split].
  - intros Hresolve. by rewrite Hresolve.
  - intros expected_type Hresolve Hmatch. by rewrite Hresolve, Hmatch.
  - intros expected_type Hresolve Hmatch.
    by rewrite Hresolve, Hmatch, Himmutable.
Qed.

(** C9.  A call of [set_argument], by index or by name, that returns an
    error leaves every member of the node as it was: the arguments, the
    parameter types and the mutability flag among them. *)
Theorem set_argument_failure_keeps_node transaction self index name argument :
  ((set_argument transaction self index argument).1 <> 0 ->
   (set_argument transaction self index argument).2 = self)
  /\ ((set_argument_by_name transaction self name argument).1 <> 0 ->
      (set_argument_by_name transaction self name argument).2 = self).
Proof.
  assert (forall i arg,
            (set_argument transaction self i arg).1 <> 0 ->
            (set_argument transaction self i arg).2 = self) as Hindex.
  { intros i arg Hfail. rewrite set_argument_state.
    destruct arg as [a|]; [|done].
    destruct ((set_argument transaction self i (Some a)).1); done. }
  split; [apply Hindex|].
  unfold set_argument_by_name.
  destruct name as [n|], argument as [a|]; try done. apply Hindex.
Qed.

(** C10.  The overload of [set_argument] that takes a name returns -1 for a
    null name, whatever the argument is and before any name is resolved: the
    code of a null argument, not the -2 that a name bound by no parameter
    gets from the overload by index. *)
Theorem set_argument_null_name transaction self index argument :
  set_argument_by_name transaction self None argument = (-1, self)
  /\ set_argument transaction self index None = (-1, self)
  /\ (forall name a,
        fits_Size (m_parameter_types self) ->
        Named_list.find_name name (m_arguments self) = None ->
        set_argument_by_name transaction self (Some name) (Some a) = (-2, self)
        /\ set_argument transaction self (get_parameter_index self name) (Some a)
           = (-2, self)).
Proof.
  split; [by destruct argument|]. split; [done|].
  intros name a Hfits Hmissing.
  assert (set_argument transaction self (get_parameter_index self name) (Some a)
          = (-2, self)) as Hindex; [|by split].
  unfold get_parameter_index, Named_list.get_index. rewrite Hmissing.
  unfold set_argument, Named_list.get, Named_list.get_entry.
  by rewrite (in_range_Size_none _ Hfits).
Qed.

End Binder_claims.

Lemma set_argument_runs_bind_one_pipeline_witness :
  Named_list.get
    (m_arguments
       (@set_argument sample_collaborators tt sample_call 1
          (Some (float_constant 1065353216))).2) 1
  = Some (float_constant 1065353216).
Proof.
  destruct (@set_argument_runs_bind_one_pipeline sample_collaborators tt
              sample_call 1 (Some (float_constant 1065353216))) as [_ Hstore].
  destruct Hstore as (a & Ha & _ & _ & Hslot & _); [reflexivity|].
  injection Ha as <-. apply Hslot. reflexivity.
Defined.

Lemma set_argument_immutable_after_type_check_witness :
  @set_argument sample_collaborators tt sample_default 2 (Some (float_constant 0))
  = (-2, sample_default)
  /\ @set_argument sample_collaborators tt sample_default 0 (Some (int_constant 1))
     = (-3, sample_default)
  /\ @set_argument sample_collaborators tt sample_default 0 (Some (float_constant 0))
     = (-4, sample_default).
Proof.
  destruct (@set_argument_immutable_after_type_check sample_collaborators tt
              sample_default 2 (float_constant 0)) as (Hunknown & _ & _);
    [reflexivity|].
  destruct (@set_argument_immutable_after_type_check sample_collaborators tt
              sample_default 0 (int_constant 1)) as (_ & Hmismatch & _);
    [reflexivity|].
  destruct (@set_argument_immutable_after_type_check sample_collaborators tt
              sample_default 0 (float_constant 0)) as (_ & _ & Himmutable);
    [reflexivity|].
  split; [|split].
  - apply Hunknown. reflexivity.
  - apply (Hmismatch uniform_float); reflexivity.
  - apply (Himmutable uniform_float); reflexivity.
Defined.

(** C2, as stated, fails: the node is immutable and the argument is not
    null, yet an integer constant offered to the float parameter [a] is
    refused with -3 (TypeMismatch), not with -4. *)
Lemma set_argument_immutable_type_mismatch :
  m_immutable sample_default = true
  /\ (@set_argument sample_collaborators tt sample_default 0
        (Some (int_constant 1))).1 = -3
  /\ (@set_argument sample_collaborators tt sample_default 0
        (Some (int_constant 1))).1 <> bind_error_code ImmutableNode.
Proof. repeat split. discriminate. Qed.

Lemma set_argument_failure_keeps_node_witness :
  (@set_argument sample_collaborators tt sample_call 0
     (Some (Expression_constant varying_float (Value_bits [ 0 ])))).2 = sample_call
  /\ (@set_argument_by_name sample_collaborators tt sample_call (Some "c")
        (Some (float_constant 0))).2 = sample_call.
Proof.
  destruct (@set_argument_failure_keeps_node sample_collaborators tt sample_call 0
              (Some "c"%string)
              (Some (Expression_constant varying_float (Value_bits [ 0 ]))))
    as [Hindex _].
  destruct (@set_argument_failure_keeps_node sample_collaborators tt sample_call 0
              (Some "c"%string) (Some (float_constant 0))) as [_ Hname].
  split; [apply Hindex|apply Hname]; vm_compute; discriminate.
Defined.

Lemma set_argument_null_name_witness :
  @set_argument_by_name sample_collaborators tt sample_call None
    (Some (float_constant 0)) = (-1, sample_call)
  /\ @set_argument_by_name sample_collaborators tt sample_call (Some "c")
       (Some (float_constant 0)) = (-2, sample_call).
Proof.
  destruct (@set_argument_null_name sample_collaborators tt sample_call 0
              (Some (float_constant 0))) as (Hnull & _ & Hunknown).
  split; [exact Hnull|].
  apply (Hunknown "c"%string (float_constant 0)); [|reflexivity].
  unfold fits_Size, Size_none. simpl. lia.
Defined.

(** ** Bulk binding *)

Arguments set_argument : simpl never.
Arguments set_argument_by_name : simpl never.

Section Bulk_binding.
Context `{Collaborators}.
Implicit Types (transaction : Transaction) (self : Mdl_function_call).
Implicit Types (entries arguments : list (string * IExpression)).

(** With unique names, the loop of [set_arguments] visits the entries of the
    list one after the other. *)
Lemma set_arguments_loop_entries transaction arguments :
  NoDup arguments.*1 ->
  forall (count i : nat) self,
    (i + count)%nat = length arguments ->
    set_arguments_loop transaction arguments count (Z.of_nat i) self
    = bind_all transaction self (drop i arguments).
Proof.
  intros Hnodup. induction count as [|count IH]; intros i self Hlen; simpl.
  - rewrite drop_ge; [done|lia].
  - destruct (lookup_lt_is_Some_2 arguments i) as [[name a] Hentry]; [lia|].
    rewrite (drop_S _ _ _ Hentry). simpl.
    destruct (get_of_lookup _ _ _ _ Hentry) as [-> Hget]. simpl.
    unfold Named_list.get_by_name, Named_list.get_index.
    rewrite (find_name_NoDup _ _ _ _ Hnodup Hentry), Hget.
    destruct (set_argument_by_name transaction self (Some name) (Some a))
      as [result self0].
    destruct (result =? 0); [simpl|done].
    replace (Z.of_nat i + 1) with (Z.of_nat (S i)) by lia.
    apply IH. lia.
Qed.

Lemma set_arguments_entries transaction self arguments :
  NoDup arguments.*1 ->
  set_arguments transaction self (Some arguments)
  = bind_all transaction self arguments.
Proof.
  intros Hnodup. unfold set_arguments, Named_list.get_size.
  rewrite Nat2Z.id.
  exact (set_arguments_loop_entries transaction arguments Hnodup
           (length arguments) O self eq_refl).
Qed.


(** A bound entry has a slot of its name, which then holds the clone; the
    slots of the other names, the names and the other members stay. *)
Lemma set_argument_by_name_success transaction self name a self0 :
  fits_Size (m_parameter_types self) ->
  set_argument_by_name transaction self (Some name) (Some a) = (0, self0) ->
  Named_list.get_by_name (m_arguments self0) name = Some (clone a)
  /\ (forall other, other <> name ->
      Named_list.get_by_name (m_arguments self0) other
      = Named_list.get_by_name (m_arguments self) other)
  /\ m_parameter_types self0 = m_parameter_types self.
Proof.
  intros Hfits Hcall. unfold set_argument_by_name in Hcall.
  pose proof (set_argument_state transaction self
                (get_parameter_index self name) (Some a)) as Hstate.
  pose proof (set_argument_ok_resolves transaction self
                (get_parameter_index self name) (Some a)) as Hresolves.
  simpl in Hstate. rewrite Hcall in Hstate, Hresolves. simpl in Hstate, Hresolves.
  specialize (Hresolves eq_refl). subst self0. simpl.
  unfold get_parameter_index, Named_list.get_by_name in *.
  destruct (Named_list.find_name name (m_arguments self)) as [n|] eqn:Hfind.
  - destruct (get_index_found _ _ _ Hfind) as [Hindex Hrange].
    rewrite !Hindex in *. split; [|split; [|done]].
    + rewrite get_index_set, Hindex. by apply get_set_eq.
    + intros other Hother. rewrite get_index_set.
      apply get_set_ne. unfold Named_list.get_index.
      destruct (Named_list.find_name other (m_arguments self)) as [m|] eqn:Hm.
      * intros Heq. apply Nat2Z.inj in Heq as ->.
        apply find_name_Some in Hfind as [x Hx], Hm as [y Hy]. congruence.
      * apply in_range_true in Hresolves. unfold fits_Size in Hfits. lia.
  - unfold Named_list.get_index in Hresolves. rewrite Hfind in Hresolves.
    by rewrite (in_range_Size_none _ Hfits) in Hresolves.
Qed.


(** After a run without error every entry is bound, and what no entry names
    is as before. *)
Lemma bind_all_success transaction entries :
  NoDup entries.*1 ->
  forall self self',
    fits_Size (m_parameter_types self) ->
    bind_all transaction self entries = (0, self') ->
    (forall name a, (name, a) ∈ entries ->
       Named_list.get_by_name (m_arguments self') name = Some (clone a))
    /\ (forall name, name ∉ entries.*1 ->
        Named_list.get_by_name (m_arguments self') name
        = Named_list.get_by_name (m_arguments self) name).
Proof.
  induction entries as [|[name a] entries IH]; intros Hnodup self self' Hfits Hrun;
    simpl in Hrun.
  - injection Hrun as <-. split; [|done]. intros name a Hin.
    by apply elem_of_nil in Hin.
  - apply NoDup_cons in Hnodup as [Hfresh Hnodup]. simpl in Hfresh.
    destruct (set_argument_by_name transaction self (Some name) (Some a))
      as [r0 self0] eqn:Hhead.
    destruct (r0 =? 0) eqn:Hr0; simpl in Hrun;
      [|injection Hrun as -> _; by rewrite Z.eqb_refl in Hr0].
    apply Z.eqb_eq in Hr0 as ->.
    destruct (set_argument_by_name_success _ _ _ _ _ Hfits Hhead)
      as (Hbound & Hothers & Htypes).
    destruct (IH Hnodup self0 self') as [Hin Hout]; [by rewrite Htypes|done|].
    split.
    + intros n b [[= -> ->]|Hrest]%elem_of_cons; [|by apply Hin].
      by rewrite (Hout _ Hfresh).
    + intros n [Hne Hn]%not_elem_of_cons. rewrite (Hout _ Hn). by apply Hothers.
Qed.


End Bulk_binding.


(** ** Dependency collector *)

Section Dependency_collector.
Context `{Collaborators}.

(** C8.  The set left by [get_scene_element_references] is the incoming set,
    the tag of the owning module when the node is mutable, and the references
    collected from the arguments and from the enable-if conditions: these
    last two are in it in every case, a mutable node always contributes its
    module, and when the module's tag is neither in the incoming set nor
    among the collected references, it is in the result exactly when the node
    is mutable. *)
Theorem get_scene_element_references_module_iff_mutable
    (self : Mdl_function_call) (result : Tag_set) :
  let references := get_scene_element_references self result in
  references
  = (if m_immutable self then result else {[ m_module_tag self ]} ∪ result)
    ∪ expression_list_references (m_arguments self)
    ∪ expression_list_references (m_enable_if_conditions self)
  /\ expression_list_references (m_arguments self) ⊆ references
  /\ expression_list_references (m_enable_if_conditions self) ⊆ references
  /\ (m_immutable self = false -> m_module_tag self ∈ references)
  /\ (m_module_tag self ∉ result ->
      m_module_tag self ∉ expression_list_references (m_arguments self) ->
      m_module_tag self ∉ expression_list_references (m_enable_if_conditions self) ->
      (m_module_tag self ∈ references <-> m_immutable self = false)).
Proof.
  intros references. subst references.
  unfold get_scene_element_references, collect_references.
  set (arguments := expression_list_references (m_arguments self)).
  set (conditions := expression_list_references (m_enable_if_conditions self)).
  destruct (m_immutable self); simpl.
  - split; [done|]. split; [set_solver|]. split; [set_solver|].
    split; [done|]. intros Hresult Harguments Hconditions.
    split; [|done]. intros Hin. exfalso.
    apply elem_of_union in Hin as [[Hin|Hin]%elem_of_union|Hin]; tauto.
  - split; [done|]. split; [set_solver|]. split; [set_solver|].
    split; [|intros _ _ _; split; [done|]]; intros _; set_solver.
Qed.

End Dependency_collector.

Lemma get_scene_element_references_module_iff_mutable_witness :
  (7%N ∈ @get_scene_element_references sample_collaborators sample_call_with_call ∅
   <-> m_immutable sample_call_with_call = false)
  /\ (7%N ∈ @get_scene_element_references sample_collaborators sample_default ∅
      <-> m_immutable sample_default = false)
  /\ 12%N ∈ @get_scene_element_references sample_collaborators sample_call_with_call ∅.
Proof.
  destruct (@get_scene_element_references_module_iff_mutable sample_collaborators
              sample_call_with_call ∅) as (_ & Harguments & _ & _ & Hmutable).
  destruct (@get_scene_element_references_module_iff_mutable sample_collaborators
              sample_default ∅) as (_ & _ & _ & _ & Himmutable).
  split; [|split].
  - apply Hmutable; apply (bool_decide_unpack _); vm_compute; reflexivity.
  - apply Himmutable; apply (bool_decide_unpack _); vm_compute; reflexivity.
  - apply Harguments. apply (bool_decide_unpack _). vm_compute. reflexivity.
Defined.

(** ** Persistence codec *)

Lemma Tag_codec_round_trips (t : Tag) : round_trips Tag_codec t.
Proof. intros rest. simpl. by rewrite N2Z.id. Qed.

Lemma Uint32_codec_round_trips (x : Z) : round_trips Uint32_codec x.
Proof. by intros rest. Qed.

Lemma bool_codec_round_trips (b : bool) : round_trips bool_codec b.
Proof. intros rest. by destruct b. Qed.

Lemma read_characters_written (s : string) (rest : list Z) :
  read_characters (String.length s)
    ((character_code <$> String.list_ascii_of_string s) ++ rest)
  = Some (s, rest).
Proof.
  induction s as [|c s IH]; [done|].
  cbn [String.length String.list_ascii_of_string].
  rewrite fmap_cons, <- app_comm_cons. cbn [read_characters].
  rewrite IH. unfold character_code. by rewrite N2Z.id, ascii_N_embedding.
Qed.

Lemma string_codec_round_trips (s : string) : round_trips string_codec s.
Proof. intros rest. simpl. rewrite Nat2Z.id. apply read_characters_written. Qed.

(** A semantic is a value of its enumeration when it is written as it is
    into 32 bits. *)
Lemma static_cast_Uint32_semantic (semantic : Z) :
  0 <= semantic < 2 ^ 32 -> static_cast_Uint32 semantic = semantic.
Proof. intros Hrange. unfold static_cast_Uint32. by apply Z.mod_small. Qed.

Section Persistence_claims.
Context `{Persistence}.

(** C6.  Serializing a call node and deserializing the words gives back a
    node with the same module tag, definition tag, function index, semantic,
    definition name and mutability flag, and with a parameter type list, a
    return type, an argument list and a list of enable-if conditions equal
    in value to the ones written, provided the node is valid (its semantic is
    an enumerator, a value of 32 bits) and the codecs of the base class and
    of the two factories read back what they write for this node. *)
Theorem deserialize_serialize_round_trip (this : Scene_element) (rest : list Z) :
  0 <= m_mdl_semantic (call this) < 2 ^ 32 ->
  round_trips base_codec (base this) ->
  round_trips type_list_codec (m_parameter_types (call this)) ->
  round_trips type_codec (m_return_type (call this)) ->
  round_trips expression_list_codec (m_arguments (call this)) ->
  round_trips expression_list_codec (m_enable_if_conditions (call this)) ->
  exists that,
    deserialize (serialize this ++ rest) = Some (that, rest)
    /\ m_module_tag (call that) = m_module_tag (call this)
    /\ m_definition_tag (call that) = m_definition_tag (call this)
    /\ m_function_index (call that) = m_function_index (call this)
    /\ m_mdl_semantic (call that) = m_mdl_semantic (call this)
    /\ m_definition_name (call that) = m_definition_name (call this)
    /\ m_immutable (call that) = m_immutable (call this)
    /\ m_parameter_types (call that) = m_parameter_types (call this)
    /\ m_return_type (call that) = m_return_type (call this)
    /\ m_arguments (call that) = m_arguments (call this)
    /\ m_enable_if_conditions (call that) = m_enable_if_conditions (call this)
    /\ that = this.
Proof.
  intros Hsemantic Hbase Htypes Hreturn Harguments Hconditions.
  exists this. split; [|by repeat split].
  unfold serialize, deserialize.
  rewrite (static_cast_Uint32_semantic _ Hsemantic), <- !app_assoc.
  rewrite Hbase. cbn [mbind option_bind].
  rewrite (Tag_codec_round_trips (m_module_tag (call this))). cbn [mbind option_bind].
  rewrite (Tag_codec_round_trips (m_definition_tag (call this))). cbn [mbind option_bind].
  rewrite (Uint32_codec_round_trips (m_function_index (call this))).
  cbn [mbind option_bind].
  rewrite (Uint32_codec_round_trips (m_mdl_semantic (call this))).
  cbn [mbind option_bind].
  rewrite (string_codec_round_trips (m_definition_name (call this))).
  cbn [mbind option_bind].
  rewrite (bool_codec_round_trips (m_immutable (call this))). cbn [mbind option_bind].
  rewrite Htypes. cbn [mbind option_bind].
  rewrite Hreturn. cbn [mbind option_bind].
  rewrite Harguments. cbn [mbind option_bind].
  rewrite Hconditions. cbn [mbind option_bind].
  by destruct this as [b []].
Qed.

End Persistence_claims.

Lemma deserialize_serialize_round_trip_witness :
  exists that,
    @deserialize sample_persistence (@serialize sample_persistence sample_element ++ [ 42 ])
    = Some (that, [ 42 ])
    /\ m_module_tag (call that) = m_module_tag (call sample_element)
    /\ m_definition_tag (call that) = m_definition_tag (call sample_element)
    /\ m_function_index (call that) = m_function_index (call sample_element)
    /\ m_mdl_semantic (call that) = m_mdl_semantic (call sample_element)
    /\ m_definition_name (call that) = m_definition_name (call sample_element)
    /\ m_immutable (call that) = m_immutable (call sample_element)
    /\ m_parameter_types (call that) = m_parameter_types (call sample_element)
    /\ m_return_type (call that) = m_return_type (call sample_element)
    /\ m_arguments (call that) = m_arguments (call sample_element)
    /\ m_enable_if_conditions (call that) = m_enable_if_conditions (call sample_element)
    /\ that = sample_element.
Proof.
  apply (@deserialize_serialize_round_trip sample_persistence sample_element [ 42 ]).
  - simpl. lia.
  - intros rest. reflexivity.
  - intros rest. reflexivity.
  - intros rest. reflexivity.
  - intros rest. reflexivity.
  - intros rest. reflexivity.
Defined.

(** ** Graph lowering engine *)

Lemma Kind_eqb_eq (a b : Kind) : Kind_eqb a b = true <-> a = b.
Proof. destruct a, b; simpl; split; (done || discriminate). Qed.

(** The check of the code accepts the shapes that the specification lists,
    and no other. *)
Lemma return_type_is_ok_accepted `{Lowering_world} (return_type : mi_mdl.IType) :
  return_type_is_ok return_type = true <-> accepted_return_shape return_type.
Proof.
  unfold return_type_is_ok, accepted_return_shape, is_color, legacy_shape,
    as_IType_struct.
  destruct (Kind_eqb (get_kind (skip_type_alias return_type)) TK_COLOR) eqn:Hcolor.
  - apply Kind_eqb_eq in Hcolor. tauto.
  - assert (get_kind (skip_type_alias return_type) <> TK_COLOR) as Hnot.
    { intros Heq. apply Kind_eqb_eq in Heq. congruence. }
    destruct (skip_type_alias return_type) as [|symbol fields| | | | | | |];
      try (split; [discriminate|intros [?|(?&?&?&?&?&?)]; done]).
    unfold get_field_count, get_field. cbn [get_symbol_name get_fields].
    destruct (String.eqb symbol "::base::texture_return") eqn:Hname;
      cbn [negb]; cycle 1.
    { apply String.eqb_neq in Hname.
      split; [discriminate|intros [?|(?&?&?&?&[= -> _]&?)]; done]. }
    apply String.eqb_eq in Hname as ->.
    destruct (Z.eqb_spec (Z.of_nat (length fields)) 2) as [Hlen|Hlen]; cycle 1.
    { split; [discriminate|intros [?|(?&?&?&?&[= ->]&?)]; done]. }
    destruct fields as [|[c_type c_name] [|[f_type f_name] [|third fields]]];
      simpl in Hlen; try lia.
    cbn [lookup list_lookup]. rewrite andb_true_iff, !Kind_eqb_eq. split.
    + intros [Hc Hf]. right. by exists c_type, c_name, f_type, f_name.
    + intros [?|(?&?&?&?&[= -> _ -> _]&?&?)]; done.
Qed.

Section Conversion_facts.
Context `{Lowering_world}.
Variable transaction : Transaction.
Variable self : Mdl_function_call.
Variable code_dag : IGenerated_code_dag.
Variable lambda_func : ILambda_function.
Variables mdl_meters_per_scene_unit mdl_wavelength_min mdl_wavelength_max : Float32.

Local Abbreviation convert_one :=
  (convert_argument transaction self code_dag lambda_func
     mdl_meters_per_scene_unit mdl_wavelength_min mdl_wavelength_max).
Local Abbreviation convert_all :=
  (convert_arguments transaction self code_dag lambda_func
     mdl_meters_per_scene_unit mdl_wavelength_min mdl_wavelength_max).

(** The loop gives up as soon as one parameter of its range has an argument
    that converts to null. *)
Lemma convert_arguments_None (count : nat) (first i : Z) :
  first <= i < first + Z.of_nat count ->
  (convert_one i).2 = None ->
  convert_all count first = None.
Proof.
  revert first. induction count as [|count IH]; intros first Hrange Hnull; [lia|].
  cbn [convert_arguments].
  destruct (convert_one first) as [name [arg|]] eqn:Hfirst; [|done].
  destruct (decide (i = first)) as [->|Hne].
  - rewrite Hfirst in Hnull. done.
  - rewrite (IH (first + 1)); [done|lia|done].
Qed.

End Conversion_facts.

Section Lowering_claims.
Context `{Lowering_world}.
Implicit Types (transaction : Transaction) (self : Mdl_function_call).

Lemma jit_option_events_no_compile :
  Forall (fun e => is_compile_event e = false) jit_option_events.
Proof.
  unfold jit_option_events.
  destruct registry_jit_opt_level, registry_jit_fast_math; by repeat constructor.
Qed.

(** C3.  With the JIT generator at hand, a definition whose return type is
    neither a color nor the two-field struct [::base::texture_return] of a
    color and a float makes [create_jitted_function] return null with -2 in
    [*errors]; no event has happened by then, so neither compile entry point
    of the generator was called. *)
Theorem create_jitted_function_unsupported_return_type
    transaction self (environment_context : bool)
    (mdl_meters_per_scene_unit mdl_wavelength_min mdl_wavelength_max : Float32) :
  jit_generator_available = true ->
  ~ accepted_return_shape
      (definition_mdl_return_type transaction (m_definition_tag self)) ->
  let outcome :=
    create_jitted_function transaction self environment_context
      mdl_meters_per_scene_unit mdl_wavelength_min mdl_wavelength_max in
  jitted_func outcome = None
  /\ errors outcome = -2
  /\ events outcome = []
  /\ Forall (fun e => is_compile_event e = false) (events outcome).
Proof.
  intros Hjit Hshape outcome. subst outcome. unfold create_jitted_function.
  rewrite Hjit. cbn [negb].
  destruct (return_type_is_ok _) eqn:Hok.
  - by apply return_type_is_ok_accepted in Hok.
  - by repeat split.
Qed.

(** C4.  Once the generator and the return type are accepted, a parameter
    whose bound argument converts to a null DAG node (whatever made the
    conversion fail, a cycle in the argument graph included) makes
    [create_jitted_function] return null with -3 in [*errors].  The one event
    after the options is the error logged, and its text is written out here:
    the sentence of the source, and between quotes the name of the function
    at the index of the node in the code DAG, with the prefix of the
    database.  The name of the definition that the node stores is not read;
    where it is that prefixed name, as for a node built from its definition,
    the text carries it between the quotes.  No compile entry point is
    called. *)
Theorem create_jitted_function_conversion_failed
    transaction self (environment_context : bool)
    (mdl_meters_per_scene_unit mdl_wavelength_min mdl_wavelength_max : Float32)
    (i : Z) :
  let code_dag := module_code_dag transaction (m_module_tag self) in
  let lambda_func :=
    create_lambda_function
      (if environment_context then LEC_ENVIRONMENT else LEC_DISPLACEMENT) in
  let n_params := get_function_parameter_count code_dag (m_function_index self) in
  let name := add_mdl_db_prefix (get_function_name code_dag (m_function_index self)) in
  jit_generator_available = true ->
  accepted_return_shape
    (definition_mdl_return_type transaction (m_definition_tag self)) ->
  0 <= i < n_params ->
  (convert_argument transaction self code_dag lambda_func
     mdl_meters_per_scene_unit mdl_wavelength_min mdl_wavelength_max i).2 = None ->
  let outcome :=
    create_jitted_function transaction self environment_context
      mdl_meters_per_scene_unit mdl_wavelength_min mdl_wavelength_max in
  jitted_func outcome = None
  /\ errors outcome = -3
  /\ events outcome =
       jit_option_events ++
       [ Log_error
           ("Type mismatch, call of an unsuitable DB element, or cycle in a graph rooted at the function definition "
            +:+ String "034"%char (name +:+ String "034"%char ".")) ]
  /\ (m_definition_name self = name ->
      events outcome =
        jit_option_events ++
        [ Log_error
            ("Type mismatch, call of an unsuitable DB element, or cycle in a graph rooted at the function definition "
             +:+ String "034"%char (m_definition_name self +:+ String "034"%char ".")) ])
  /\ Forall (fun e => is_compile_event e = false) (events outcome).
Proof.
  intros code_dag lambda_func n_params name Hjit Hshape Hrange Hnull outcome.
  assert (outcome
          = {| jitted_func := None; errors := -3;
               events := jit_option_events ++
                 [ Log_error (conversion_failure_message name) ] |}) as ->.
  { subst outcome. unfold create_jitted_function.
    apply return_type_is_ok_accepted in Hshape.
    rewrite Hjit, Hshape. cbn [negb].
    fold code_dag. fold lambda_func. fold n_params.
    by rewrite (convert_arguments_None _ _ _ _ _ _ _ (Z.to_nat n_params) 0 i);
      [|lia|done]. }
  cbn [jitted_func errors events].
  split; [done|]. split; [done|]. split; [reflexivity|]. split.
  - intros ->. reflexivity.
  - apply Forall_app_2; [apply jit_option_events_no_compile|].
    by repeat constructor.
Qed.

(** C7.  When the return type of the definition has the legacy shape, the
    call node built from the converted arguments is wrapped into a call of
    semantic [DS_INTRINSIC_DAG_FIELD_ACCESS] that takes it as its argument
    [s], is named after the first field and has the type of that field, the
    color; this wrapping node is what the lambda function receives, as root
    expression 0 in the switch context and as body in the environment
    context, and what is compiled. *)
Theorem create_jitted_function_wraps_legacy_result
    transaction self (environment_context : bool)
    (mdl_meters_per_scene_unit mdl_wavelength_min mdl_wavelength_max : Float32)
    (c_type f_type : mi_mdl.IType) (c_name f_name : string)
    (mdl_arguments : list (DAG_node * string)) :
  let return_type := definition_mdl_return_type transaction (m_definition_tag self) in
  let code_dag := module_code_dag transaction (m_module_tag self) in
  let lambda_func :=
    create_lambda_function
      (if environment_context then LEC_ENVIRONMENT else LEC_DISPLACEMENT) in
  let n_params := get_function_parameter_count code_dag (m_function_index self) in
  jit_generator_available = true ->
  skip_type_alias return_type
    = Type_struct legacy_name [ (c_type, c_name); (f_type, f_name) ] ->
  is_color c_type ->
  is_float f_type ->
  convert_arguments transaction self code_dag lambda_func
    mdl_meters_per_scene_unit mdl_wavelength_min mdl_wavelength_max
    (Z.to_nat n_params) 0 = Some mdl_arguments ->
  let call :=
    DAG_call (get_function_name code_dag (m_function_index self))
      (definition_mdl_semantic transaction (m_definition_tag self))
      mdl_arguments return_type in
  let wrapped :=
    DAG_call (field_access_name legacy_name c_name)
      DS_INTRINSIC_DAG_FIELD_ACCESS [ (call, "s") ] c_type in
  let outcome :=
    create_jitted_function transaction self environment_context
      mdl_meters_per_scene_unit mdl_wavelength_min mdl_wavelength_max in
  if environment_context
  then
    events outcome =
      jit_option_events ++
      [ Set_body wrapped;
        Compile_into_environment
          {| lambda_context := LEC_ENVIRONMENT;
             lambda_roots := [];
             lambda_body := Some wrapped |} ]
  else
    events outcome =
      jit_option_events ++
      [ Store_root_expr wrapped;
        Compile_into_switch_function
          {| lambda_context := LEC_DISPLACEMENT;
             lambda_roots := [ wrapped ];
             lambda_body := None |} 1 0 ].
Proof.
  intros return_type code_dag lambda_func n_params Hjit Hstruct Hcolor Hfloat
    Hconverted call wrapped outcome.
  subst outcome. unfold create_jitted_function.
  assert (return_type_is_ok return_type = true) as Hok.
  { apply return_type_is_ok_accepted. right.
    by exists c_type, c_name, f_type, f_name. }
  fold return_type. rewrite Hjit, Hok. cbn [negb].
  fold code_dag. fold lambda_func. fold n_params. rewrite Hconverted.
  unfold wrap_struct_result, as_IType_struct. rewrite Hstruct.
  by destruct environment_context.
Qed.

End Lowering_claims.

(** ** Cycles in the argument graph *)

Section Cycle_detection.
Variable return_type_of : Tag -> mi_mdl.IType.
Variable store : gmap N Mdl_function_call.

(** A call that is not under conversion yet, from which a call under
    conversion or a cycle can be reached, has a referenced call with the same
    property once it is itself under conversion. *)
Lemma cycle_step (call_trace : gset N) (t : Tag) :
  t ∉ call_trace ->
  (exists u, u ∈ call_trace /\ rtc (references store) t u) \/ reaches_cycle store t ->
  exists t',
    references store t t'
    /\ ((exists u, u ∈ {[ t ]} ∪ call_trace /\ rtc (references store) t' u)
        \/ reaches_cycle store t').
Proof.
  intros Hfresh [(u & Hu & Hpath)|(u & Hpath & Hcycle)].
  - apply rtc_inv in Hpath as [->|(t' & Hstep & Hpath)]; [done|].
    exists t'. split; [done|]. left. exists u. split; [set_solver|done].
  - apply rtc_inv in Hpath as [->|(t' & Hstep & Hpath)].
    + inversion Hcycle as [? ? Hstep|? t' ? Hstep Hback]; subst.
      * exists u. split; [done|]. left. exists u. split; [set_solver|done].
      * exists t'. split; [done|]. left. exists u.
        split; [set_solver|by apply tc_rtc].
    + exists t'. split; [done|]. right. by exists u.
Qed.

(** The conversion of such a call fails, whatever the fuel. *)
Lemma convert_expression_cycle (fuel : nat) :
  forall (call_trace : gset N) (t : Tag) (type : MDL.IType),
    (exists u, u ∈ call_trace /\ rtc (references store) t u)
    \/ reaches_cycle store t ->
    convert_expression return_type_of store fuel call_trace (Expression_call type t)
    = None.
Proof.
  induction fuel as [|fuel IH]; intros call_trace t type Hcycle; [done|].
  cbn [convert_expression]. case_decide as Htrace; [done|].
  destruct (cycle_step _ _ Htrace Hcycle) as (t' & Hstep & Hnext).
  destruct Hstep as (callee & name & type' & Hcallee & Hentry).
  rewrite Hcallee. cbn [mbind option_bind].
  destruct (mapM _ (m_arguments callee)) as [arguments|] eqn:Harguments; [|done].
  exfalso.
  assert (is_Some (mapM
            (fun entry : string * IExpression =>
               node ← convert_expression return_type_of store fuel
                        ({[ t ]} ∪ call_trace) entry.2;
               Some (node, entry.1)) (m_arguments callee))) as Hall
    by (by rewrite Harguments).
  apply mapM_is_Some_1 in Hall.
  rewrite Forall_forall in Hall. specialize (Hall _ Hentry).
  cbn [snd compose] in Hall. rewrite (IH _ _ _ Hnext) in Hall.
  by destruct Hall.
Qed.

End Cycle_detection.

(** ** Lowering the sample nodes *)

(** The example of the specification: the node bound to two float constants
    lowers to one call node with two constant children, and is compiled. *)
Example sample_call_lowers :
  jitted_func (sample_lower sample_call false)
  = Some (sample_call_lambda : @IGenerated_code_lambda_function _ sample_world)
  /\ errors (sample_lower sample_call false) = 0
  /\ events (sample_lower sample_call false)
     = [ Set_option MDL_JIT_OPTION_ENABLE_RO_SEGMENT "true";
         Set_option MDL_JIT_OPTION_USE_BITANGENT "true";
         Set_option MDL_JIT_OPTION_OPT_LEVEL "2";
         Store_root_expr sample_call_node;
         Compile_into_switch_function sample_call_lambda 1 0 ].
Proof. repeat split; reflexivity. Qed.

(** An argument that is a call without a cycle converts. *)
Example sample_nested_call_converts :
  convert_expression sample_return_types sample_store 8 ∅
    (Expression_call plain_float 22%N)
  = Some (DAG_call "mdl::f(float,float)" 0
            [ (DAG_constant (Value_bits [ 0 ]), "a");
              (DAG_constant (Value_bits [ 0 ]), "b") ] Type_color).
Proof. vm_compute. reflexivity. Qed.

Lemma create_jitted_function_unsupported_return_type_witness :
  jitted_func (sample_lower (sample_node 11 (m_arguments sample_call)) true) = None
  /\ errors (sample_lower (sample_node 11 (m_arguments sample_call)) true) = -2
  /\ events (sample_lower (sample_node 11 (m_arguments sample_call)) true) = []
  /\ Forall (fun e => is_compile_event e = false)
       (events (sample_lower (sample_node 11 (m_arguments sample_call)) true)).
Proof.
  apply (@create_jitted_function_unsupported_return_type sample_collaborators
           sample_world tt (sample_node 11 (m_arguments sample_call)) true 0 0 0).
  - reflexivity.
  - intros [Hcolor|(c_type & c_name & f_type & f_name & Hstruct & _)];
      discriminate.
Defined.

Lemma sample_store_references_21_20 : references sample_store 21%N 20%N.
Proof.
  exists (sample_node 9 [ ("a", Expression_call plain_float 20%N);
                          ("b", float_constant 0) ]), "a"%string, plain_float.
  split; [by vm_compute|]. apply list_elem_of_here.
Qed.

Lemma sample_store_references_20_21 : references sample_store 20%N 21%N.
Proof.
  exists sample_cyclic_call, "a"%string, plain_float.
  split; [by vm_compute|]. apply list_elem_of_here.
Qed.

Lemma sample_store_cycle : reaches_cycle sample_store 21%N.
Proof.
  exists 21%N. split; [apply rtc_refl|].
  eapply tc_l; [apply sample_store_references_21_20|].
  apply tc_once, sample_store_references_20_21.
Qed.

(** No amount of fuel converts the argument [a] of the call 20. *)
Example sample_cycle_never_converts (fuel : nat) :
  convert_expression sample_return_types sample_store fuel ∅
    (Expression_call plain_float 21%N) = None.
Proof. apply convert_expression_cycle. right. apply sample_store_cycle. Qed.

Lemma create_jitted_function_conversion_failed_witness :
  jitted_func (sample_lower sample_cyclic_call false) = None
  /\ errors (sample_lower sample_cyclic_call false) = -3
  /\ events (sample_lower sample_cyclic_call false)
     = @jit_option_events _ sample_world ++
       [ Log_error
           ("Type mismatch, call of an unsuitable DB element, or cycle in a graph rooted at the function definition "
            +:+ String "034"%char ("mdl::f(float,float)" +:+ String "034"%char ".")) ]
  /\ m_definition_name sample_cyclic_call = "mdl::f(float,float)"
  /\ events (sample_lower sample_cyclic_call false)
     = @jit_option_events _ sample_world ++
       [ Log_error
           ("Type mismatch, call of an unsuitable DB element, or cycle in a graph rooted at the function definition "
            +:+ String "034"%char
                  (m_definition_name sample_cyclic_call +:+ String "034"%char ".")) ]
  /\ Forall (fun e => is_compile_event e = false)
       (events (sample_lower sample_cyclic_call false)).
Proof.
  destruct (@create_jitted_function_conversion_failed sample_collaborators
              sample_world tt sample_cyclic_call false 0 0 0 0)
    as (Hnull & Herrors & Hevents & Hname & Hcompile).
  - reflexivity.
  - left. reflexivity.
  - simpl. lia.
  - vm_compute. reflexivity.
  - split; [exact Hnull|]. split; [exact Herrors|]. split; [exact Hevents|].
    split; [reflexivity|]. split; [apply Hname; reflexivity|exact Hcompile].
Defined.

Lemma create_jitted_function_wraps_legacy_result_witness :
  events (sample_lower sample_texture_call true)
  = @jit_option_events _ sample_world ++
    [ Set_body sample_texture_node;
      Compile_into_environment
        {| lambda_context := LEC_ENVIRONMENT;
           lambda_roots := [];
           lambda_body := Some sample_texture_node |} ].
Proof.
  apply (@create_jitted_function_wraps_legacy_result sample_collaborators
           sample_world tt sample_texture_call true 0 0 0
           Type_color Type_float "tint" "mono"
           [ (DAG_constant (Value_bits [ 0 ]), "a"%string);
             (DAG_constant (Value_bits [ 0 ]), "b"%string) ]).
  - reflexivity.
  - reflexivity.
  - reflexivity.
  - reflexivity.
  - vm_compute. reflexivity.
Defined.


(** * Further properties *)

(** ** Argument binder *)

Section Binder_more.
Context `{Collaborators}.
Implicit Types (transaction : Transaction) (self : Mdl_function_call).

Lemma with_arguments_same self :
  with_arguments self (m_arguments self) = self.
Proof. by destruct self. Qed.

Lemma with_arguments_twice self (l l' : IExpression_list) :
  with_arguments (with_arguments self l) l' = with_arguments self l'.
Proof. done. Qed.

(** What [set_argument] returns does not depend on the expressions that are
    bound when it is called. *)
Lemma set_argument_code_with_arguments transaction self (l : IExpression_list)
    index argument :
  (set_argument transaction (with_arguments self l) index argument).1
  = (set_argument transaction self index argument).1.
Proof. by rewrite !set_argument_code. Qed.

(** The node after a call is the node before it with other bound
    expressions, under the same names. *)
Lemma set_argument_result_shape transaction self index argument :
  exists l : IExpression_list,
    (set_argument transaction self index argument).2 = with_arguments self l
    /\ l.*1 = (m_arguments self).*1
    /\ length l = length (m_arguments self).
Proof.
  rewrite set_argument_state.
  destruct argument as [a|];
    [destruct ((set_argument transaction self index (Some a)).1)|].
  - exists (Named_list.set (m_arguments self) index (clone a)).2.
    split; [done|]. split; [apply names_set|apply length_set].
  - exists (m_arguments self). by rewrite with_arguments_same.
  - exists (m_arguments self). by rewrite with_arguments_same.
  - exists (m_arguments self). by rewrite with_arguments_same.
Qed.

Lemma same_signature_refl self : same_signature self self.
Proof. by repeat split. Qed.

Lemma same_signature_trans self self' self'' :
  same_signature self self' -> same_signature self' self'' ->
  same_signature self self''.
Proof.
  intros (?&?&?&?&?&?&?&?&?&?) (?&?&?&?&?&?&?&?&?&?).
  repeat split; congruence.
Qed.

Lemma same_signature_with_arguments self (l : IExpression_list) :
  l.*1 = (m_arguments self).*1 -> same_signature self (with_arguments self l).
Proof. intros Hnames. by repeat split. Qed.

Lemma set_argument_same_signature transaction self index argument :
  same_signature self (set_argument transaction self index argument).2.
Proof.
  destruct (set_argument_result_shape transaction self index argument)
    as (l & -> & Hnames & _).
  by apply same_signature_with_arguments.
Qed.

Lemma set_argument_by_name_same_signature transaction self name argument :
  same_signature self (set_argument_by_name transaction self name argument).2.
Proof.
  unfold set_argument_by_name.
  destruct name as [n|], argument as [a|]; try apply same_signature_refl.
  apply set_argument_same_signature.
Qed.

Lemma set_arguments_loop_same_signature transaction
    (arguments : IExpression_list) (count : nat) :
  forall (i : Z) self,
    same_signature self (set_arguments_loop transaction arguments count i self).2.
Proof.
  induction count as [|count IH]; intros i self; cbn [set_arguments_loop].
  - apply same_signature_refl.
  - pose proof (set_argument_by_name_same_signature transaction self
                  (Named_list.get_name arguments i)
                  (Named_list.get_name arguments i
                     ≫= Named_list.get_by_name arguments)) as Hstep.
    destruct (set_argument_by_name _ _ _ _) as [result self0].
    destruct (negb (result =? 0)); [done|].
    eapply same_signature_trans; [exact Hstep|apply IH].
Qed.

End Binder_more.

Section Named_list_more.
Context {A : Type}.
Implicit Types (l : list (string * A)) (x y : A) (name : string).

(** Setting a slot twice keeps the second value. *)
Lemma set_set_eq l (i : Z) x y :
  (Named_list.set (Named_list.set l i x).2 i y).2 = (Named_list.set l i y).2.
Proof.
  rewrite !set_result.
  destruct (Named_list.in_range l i) eqn:Hi; rewrite ?in_range_alter, ?Hi;
    [|done].
  rewrite list_alter_alter_eq. by apply list_alter_ext.
Qed.

(** Setting two slots gives the same list in either order. *)
Lemma set_set_ne l (i j : Z) x y :
  i <> j ->
  (Named_list.set (Named_list.set l i x).2 j y).2
  = (Named_list.set (Named_list.set l j y).2 i x).2.
Proof.
  intros Hne. rewrite !set_result.
  destruct (Named_list.in_range l i) eqn:Hi, (Named_list.in_range l j) eqn:Hj;
    rewrite ?in_range_alter, ?Hi, ?Hj; try done.
  apply in_range_true in Hi, Hj. apply list_alter_alter_ne. lia.
Qed.

Lemma find_name_is_Some l name :
  is_Some (Named_list.find_name name l) <-> name ∈ l.*1.
Proof.
  split.
  - intros [n Hn]. apply find_name_Some in Hn as [x Hx].
    apply list_elem_of_fmap. exists (name, x). split; [done|].
    by apply list_elem_of_lookup_2 with n.
  - intros Hin. destruct (Named_list.find_name name l) eqn:Hfind; [done|].
    by apply find_name_None in Hfind.
Qed.

(** A lookup by name finds the entry of that name: with unique names and a
    size that is a [mi::Size], it answers [x] exactly when the list holds
    the entry [(name, x)]. *)
Lemma get_by_name_Some l name x :
  NoDup l.*1 -> fits_Size l ->
  Named_list.get_by_name l name = Some x <-> (name, x) ∈ l.
Proof.
  intros Hnodup Hfits. unfold Named_list.get_by_name, Named_list.get_index. split.
  - destruct (Named_list.find_name name l) as [n|] eqn:Hfind.
    + destruct (find_name_Some _ _ _ Hfind) as [y Hy].
      destruct (get_of_lookup _ _ _ _ Hy) as [_ ->]. intros [= ->].
      by apply list_elem_of_lookup_2 with n.
    + unfold Named_list.get, Named_list.get_entry.
      by rewrite (in_range_Size_none _ Hfits).
  - intros [n Hn]%list_elem_of_lookup_1.
    rewrite (find_name_NoDup _ _ _ _ Hnodup Hn).
    by destruct (get_of_lookup _ _ _ _ Hn) as [_ ->].
Qed.

(** Hence the order of the entries does not matter to a lookup by name. *)
Lemma get_by_name_Permutation l l' name :
  NoDup l.*1 -> fits_Size l -> l ≡ₚ l' ->
  Named_list.get_by_name l name = Named_list.get_by_name l' name.
Proof.
  intros Hnodup Hfits Hperm.
  assert (NoDup l'.*1) as Hnodup' by (by rewrite <- Hperm).
  assert (fits_Size l') as Hfits'
    by (unfold fits_Size in *; by rewrite <- Hperm).
  apply option_eq. intros x.
  rewrite !get_by_name_Some by done. by rewrite Hperm.
Qed.

End Named_list_more.

Section Binder_extras.
Context `{Collaborators}.
Implicit Types (transaction : Transaction) (self : Mdl_function_call).

(** What a call that returns 0 has checked. *)
Lemma set_argument_ok_inv transaction self index argument :
  (set_argument transaction self index argument).1 = 0 ->
  exists a expected_type,
    argument = Some a
    /\ Named_list.get (m_parameter_types self) index = Some expected_type
    /\ argument_type_matches_parameter_type (MDL.get_type a) expected_type = true
    /\ m_immutable self = false
    /\ carries_qualifier (MDL.get_type a) MK_VARYING
       && carries_qualifier expected_type MK_UNIFORM = false
    /\ is_constant_or_call a = true
    /\ carries_qualifier expected_type MK_UNIFORM
       && return_type_is_varying transaction a = false.
Proof.
  rewrite set_argument_code. unfold bind_one_verdict.
  destruct argument as [a|]; [|by cbn].
  destruct (Named_list.get (m_parameter_types self) index) as [expected|];
    [|by cbn].
  unfold bind_one_checks. cbn [first_failing_check].
  destruct (argument_type_matches_parameter_type _ _) eqn:Hmatch; [|by cbn].
  destruct (m_immutable self) eqn:Hmutable; [by cbn|]. cbn [negb].
  destruct (carries_qualifier (MDL.get_type a) MK_VARYING
            && carries_qualifier expected MK_UNIFORM) eqn:Hqualifier;
    [by cbn|]. cbn [negb].
  destruct (is_constant_or_call a) eqn:Hkind; [|by cbn].
  destruct (carries_qualifier expected MK_UNIFORM
            && return_type_is_varying transaction a) eqn:Hvarying; [by cbn|].
  intros _. by exists a, expected.
Qed.

Lemma set_argument_code_in_codes transaction self index argument :
  (set_argument transaction self index argument).1 ∈ set_argument_codes.
Proof.
  rewrite set_argument_code.
  destruct (bind_one_verdict transaction self index argument) as [[]|];
    by repeat constructor.
Qed.

(** X1.  [set_argument] returns 0 exactly when the argument is not null, the
    index is the index of a parameter type, the types match, the node is
    mutable, the argument's type is not varying while the parameter's is
    uniform, the argument is a constant or a call, and the parameter is not
    uniform while the argument returns a varying result.  Whatever it
    returns is one of 0, -1, -2, -3, -4, -5, -6 and -8. *)
Theorem set_argument_succeeds_iff transaction self index argument :
  ((set_argument transaction self index argument).1 = 0 <->
   exists a expected_type,
     argument = Some a
     /\ Named_list.get (m_parameter_types self) index = Some expected_type
     /\ argument_type_matches_parameter_type (MDL.get_type a) expected_type = true
     /\ m_immutable self = false
     /\ carries_qualifier (MDL.get_type a) MK_VARYING
        && carries_qualifier expected_type MK_UNIFORM = false
     /\ is_constant_or_call a = true
     /\ carries_qualifier expected_type MK_UNIFORM
        && return_type_is_varying transaction a = false)
  /\ (set_argument transaction self index argument).1 ∈ set_argument_codes.
Proof.
  split; [split|apply set_argument_code_in_codes].
  - apply set_argument_ok_inv.
  - intros (a & expected & -> & Hget & Hmatch & Hmutable & Hqualifier & Hkind
            & Hvarying).
    rewrite set_argument_code. unfold bind_one_verdict, bind_one_checks.
    rewrite Hget. cbn [first_failing_check].
    by rewrite Hmatch, Hmutable, Hqualifier, Hkind, Hvarying.
Qed.

Lemma set_argument_immutable transaction self index argument :
  m_immutable self = true ->
  (set_argument transaction self index argument).1 <> 0
  /\ (set_argument transaction self index argument).2 = self.
Proof.
  intros Himmutable.
  assert ((set_argument transaction self index argument).1 <> 0) as Hfail.
  { intros (a & expected & _ & _ & _ & Hmutable & _)%set_argument_ok_inv.
    congruence. }
  split; [done|]. rewrite set_argument_state.
  destruct argument as [a|]; [|done].
  by destruct ((set_argument transaction self index (Some a)).1).
Qed.

Lemma set_argument_by_name_immutable transaction self name argument :
  m_immutable self = true ->
  (set_argument_by_name transaction self name argument).1 <> 0
  /\ (set_argument_by_name transaction self name argument).2 = self.
Proof.
  intros Himmutable. unfold set_argument_by_name.
  destruct name as [n|], argument as [a|]; try done.
  by apply set_argument_immutable.
Qed.

(** X2.  An immutable node is never rebound: [set_argument], by index or by
    name, does not return 0 on it, [set_arguments] returns an error for every
    list that has an entry, and each of them leaves the node as it was. *)
Theorem immutable_node_is_never_rebound transaction self :
  m_immutable self = true ->
  (forall index argument,
      (set_argument transaction self index argument).1 <> 0
      /\ (set_argument transaction self index argument).2 = self)
  /\ (forall name argument,
        (set_argument_by_name transaction self name argument).1 <> 0
        /\ (set_argument_by_name transaction self name argument).2 = self)
  /\ (forall arguments, (set_arguments transaction self arguments).2 = self)
  /\ (forall entry entries,
        (set_arguments transaction self (Some (entry :: entries))).1 <> 0).
Proof.
  intros Himmutable.
  assert (forall (arguments : IExpression_list) count i,
            (set_arguments_loop transaction arguments count i self).2 = self
            /\ (count <> O ->
                (set_arguments_loop transaction arguments count i self).1 <> 0))
    as Hloop.
  { intros arguments [|count] i; cbn [set_arguments_loop]; [done|].
    destruct (set_argument_by_name_immutable transaction self
                (Named_list.get_name arguments i)
                (Named_list.get_name arguments i
                   ≫= Named_list.get_by_name arguments) Himmutable)
      as [Hfail Hsame].
    destruct (set_argument_by_name _ _ _ _) as [result self0].
    simpl in Hfail, Hsame. subst self0.
    rewrite (proj2 (Z.eqb_neq result 0) Hfail). by cbn. }
  split; [intros; by apply set_argument_immutable|].
  split; [intros; by apply set_argument_by_name_immutable|].
  split.
  - intros [arguments|]; [apply Hloop|done].
  - intros entry entries. unfold set_arguments, Named_list.get_size.
    rewrite Nat2Z.id. by apply Hloop.
Qed.

Lemma same_signature_accessors self self' :
  same_signature self self' ->
  get_parameter_count self' = get_parameter_count self
  /\ (forall name, get_parameter_index self' name = get_parameter_index self name)
  /\ (forall index, get_parameter_name self' index = get_parameter_name self index)
  /\ (sizes_agree self -> sizes_agree self').
Proof.
  intros (_ & _ & _ & _ & _ & _ & Htypes & _ & _ & Hnames).
  assert (length (m_arguments self') = length (m_arguments self)) as Hlength.
  { by rewrite <- (length_fmap fst (m_arguments self')), Hnames, length_fmap. }
  split; [|split; [|split]].
  - unfold get_parameter_count, Named_list.get_size. by rewrite Hlength.
  - intros name. unfold get_parameter_index, Named_list.get_index.
    by rewrite (find_name_names _ _ name Hnames).
  - intros index.
    unfold get_parameter_name, Named_list.get_name, Named_list.get_entry,
      Named_list.in_range, Named_list.get_size.
    rewrite Hlength. destruct (_ && _); [|done].
    by rewrite <- !list_lookup_fmap, Hnames.
  - unfold sizes_agree. by rewrite Hlength, Htypes.
Qed.

(** X3.  Binding never changes the signature of a node: after
    [set_argument], by index or by name, and after [set_arguments], whatever
    they return, the node has the tags, function index, semantic, name, flag,
    types and conditions it had, as many parameters under the same names at
    the same indices, and argument and parameter lists of the same size if it
    had them before. *)
Theorem binding_keeps_signature transaction self index name argument arguments :
  Forall
    (fun self' =>
       same_signature self self'
       /\ get_parameter_count self' = get_parameter_count self
       /\ (forall n, get_parameter_index self' n = get_parameter_index self n)
       /\ (forall i, get_parameter_name self' i = get_parameter_name self i)
       /\ (sizes_agree self -> sizes_agree self'))
    [ (set_argument transaction self index argument).2;
      (set_argument_by_name transaction self name argument).2;
      (set_arguments transaction self arguments).2 ].
Proof.
  assert (forall self', same_signature self self' ->
            same_signature self self'
            /\ get_parameter_count self' = get_parameter_count self
            /\ (forall n, get_parameter_index self' n = get_parameter_index self n)
            /\ (forall i, get_parameter_name self' i = get_parameter_name self i)
            /\ (sizes_agree self -> sizes_agree self')) as Hall.
  { intros self' Hsame. split; [done|]. by apply same_signature_accessors. }
  repeat apply Forall_cons_2; [..|apply Forall_nil_2]; apply Hall.
  - apply set_argument_same_signature.
  - apply set_argument_by_name_same_signature.
  - destruct arguments as [l|]; [|apply same_signature_refl].
    apply set_arguments_loop_same_signature.
Qed.

End Binder_extras.

Section Binder_composition.
Context `{Collaborators}.
Implicit Types (transaction : Transaction) (self : Mdl_function_call).

(** The node after a call on a node with other bound expressions. *)
Lemma set_argument_after transaction self (l : IExpression_list) index argument :
  (set_argument transaction (with_arguments self l) index argument).2
  = match argument, (set_argument transaction self index argument).1 with
    | Some a, 0 => with_arguments self (Named_list.set l index (clone a)).2
    | _, _ => with_arguments self l
    end.
Proof.
  rewrite set_argument_state. destruct argument as [a|]; [|done].
  rewrite set_argument_code_with_arguments.
  by destruct ((set_argument transaction self index (Some a)).1).
Qed.

Lemma set_argument_after_self transaction self index argument :
  (set_argument transaction self index argument).2
  = with_arguments self
      match argument, (set_argument transaction self index argument).1 with
      | Some a, 0 => (Named_list.set (m_arguments self) index (clone a)).2
      | _, _ => m_arguments self
      end.
Proof.
  rewrite set_argument_state.
  destruct argument as [a|]; [|by rewrite with_arguments_same].
  destruct ((set_argument transaction self index (Some a)).1);
    by rewrite ?with_arguments_same.
Qed.

(** X4.  The last binding wins: a binding of a parameter that is accepted
    gives the same result, and leaves the same node, whether or not another
    argument was offered for that parameter before. *)
Theorem set_argument_last_binding_wins transaction self index first second :
  (set_argument transaction self index second).1 = 0 ->
  set_argument transaction (set_argument transaction self index first).2
    index second
  = set_argument transaction self index second.
Proof.
  intros Hok. destruct second as [b|]; [|by unfold set_argument in Hok].
  rewrite (set_argument_after_self transaction self index first).
  apply injective_projections; [apply set_argument_code_with_arguments|].
  rewrite set_argument_after, (set_argument_after_self _ self index (Some b)).
  simpl. rewrite Hok.
  destruct first as [a|]; [|done].
  destruct ((set_argument transaction self index (Some a)).1); try done.
  by rewrite set_set_eq.
Qed.

(** X5.  Bindings of different parameters do not interfere: the result of
    each is the one it has on the node alone, and the node after both is the
    same in either order. *)
Theorem set_argument_bindings_commute transaction self i j a b :
  i <> j ->
  (set_argument transaction (set_argument transaction self i a).2 j b).1
  = (set_argument transaction self j b).1
  /\ (set_argument transaction (set_argument transaction self j b).2 i a).1
     = (set_argument transaction self i a).1
  /\ (set_argument transaction (set_argument transaction self i a).2 j b).2
     = (set_argument transaction (set_argument transaction self j b).2 i a).2.
Proof.
  intros Hne.
  rewrite (set_argument_after_self transaction self i a),
    (set_argument_after_self transaction self j b).
  split; [apply set_argument_code_with_arguments|].
  split; [apply set_argument_code_with_arguments|].
  rewrite !set_argument_after.
  destruct a as [a|], b as [b|]; try done;
    try (by destruct ((set_argument transaction self i _).1));
    try (by destruct ((set_argument transaction self j _).1)).
  destruct ((set_argument transaction self i (Some a)).1);
    destruct ((set_argument transaction self j (Some b)).1); try done.
  by rewrite set_set_ne.
Qed.

Lemma get_None_out_of_range {A : Type} (l : list (string * A)) (index : Z) :
  Named_list.get l index = None <-> Named_list.in_range l index = false.
Proof.
  unfold Named_list.get, Named_list.get_entry.
  destruct (Named_list.in_range l index) eqn:Hrange; [|done].
  apply in_range_true in Hrange.
  destruct (lookup_lt_is_Some_2 l (Z.to_nat index)) as [entry ->]; [lia|done].
Qed.

Lemma set_argument_unknown_parameter_iff_aux transaction self index a :
  sizes_agree self ->
  (set_argument transaction self index (Some a)).1 = -2
  <-> ~ (0 <= index < get_parameter_count self).
Proof.
  intros Hsizes. unfold get_parameter_count, Named_list.get_size.
  rewrite Hsizes, <- in_range_true, not_true_iff_false, <- get_None_out_of_range.
  rewrite set_argument_code. unfold bind_one_verdict, bind_one_checks.
  destruct (Named_list.get (m_parameter_types self) index) as [expected|];
    [|done].
  cbn [first_failing_check].
  split; [|done].
  destruct (argument_type_matches_parameter_type _ _); [|by cbn].
  destruct (negb (m_immutable self)); [|by cbn].
  destruct (negb (_ && _)); [|by cbn].
  destruct (is_constant_or_call a); [|by cbn].
  by destruct (negb (_ && _)).
Qed.

(** X6.  On a node whose argument and parameter lists have the same size,
    the indices that [set_argument] accepts for a non-null argument are those
    below [get_parameter_count]: it returns -2 exactly for the others. *)
Theorem set_argument_unknown_parameter_iff transaction self index a :
  sizes_agree self ->
  (set_argument transaction self index (Some a)).1 = -2
  <-> ~ (0 <= index < get_parameter_count self).
Proof. apply set_argument_unknown_parameter_iff_aux. Qed.

(** X7.  Binding by name resolves the name among the node's parameters: on a
    node with lists of the same size (a size that is a [mi::Size]), a
    non-null argument for a non-null name is answered -2 exactly when no
    parameter has that name; and when 0 is returned, a lookup of the name
    among the arguments gives the clone, and a lookup of any other name
    gives what it gave before. *)
Theorem set_argument_by_name_resolves transaction self name a self' :
  fits_Size (m_parameter_types self) ->
  sizes_agree self ->
  ((set_argument_by_name transaction self (Some name) (Some a)).1 = -2
   <-> name ∉ (m_arguments self).*1)
  /\ (set_argument_by_name transaction self (Some name) (Some a) = (0, self') ->
      Named_list.get_by_name (m_arguments self') name = Some (clone a)
      /\ forall other, other <> name ->
           Named_list.get_by_name (m_arguments self') other
           = Named_list.get_by_name (m_arguments self) other).
Proof.
  intros Hfits Hsizes. split.
  - unfold set_argument_by_name.
    rewrite (set_argument_unknown_parameter_iff_aux transaction self _ a Hsizes).
    unfold get_parameter_index, get_parameter_count, Named_list.get_index,
      Named_list.get_size.
    rewrite <- find_name_is_Some, <- eq_None_not_Some.
    destruct (Named_list.find_name name (m_arguments self)) as [n|] eqn:Hfind.
    + apply find_name_Some in Hfind as [x Hx]. apply lookup_lt_Some in Hx.
      split; [lia|done].
    + split; [done|]. intros _. unfold fits_Size, sizes_agree in *. lia.
  - intros Hcall.
    destruct (set_argument_by_name_success _ _ _ _ _ Hfits Hcall)
      as (Hbound & Hothers & _).
    by split.
Qed.

End Binder_composition.

Section Binder_bulk_and_accessors.
Context `{Collaborators}.
Implicit Types (transaction : Transaction) (self : Mdl_function_call).

(** X8.  When [set_arguments] returns 0 for a list with unique names, every
    entry of the list is bound: a lookup of its name among the node's
    arguments gives the clone of its expression, and a lookup of a name that
    the list does not hold gives what it gave before the call. *)
Theorem set_arguments_success_binds_all transaction self
    (arguments : IExpression_list) self' :
  NoDup arguments.*1 ->
  fits_Size (m_parameter_types self) ->
  set_arguments transaction self (Some arguments) = (0, self') ->
  (forall name a, (name, a) ∈ arguments ->
     Named_list.get_by_name (m_arguments self') name = Some (clone a))
  /\ (forall name, name ∉ arguments.*1 ->
      Named_list.get_by_name (m_arguments self') name
      = Named_list.get_by_name (m_arguments self) name).
Proof.
  intros Hnodup Hfits Hrun.
  rewrite (set_arguments_entries _ _ _ Hnodup) in Hrun.
  by apply (bind_all_success transaction arguments Hnodup self self').
Qed.

(** ** Promotion *)

(** X10.  [make_mutable] clears the immutable flag and touches nothing but
    that flag and an invalid module tag: a valid module tag is kept, an
    invalid one is replaced by the module of the definition, and every other
    member stays.  Promoting twice is promoting once. *)
Theorem make_mutable_promotes (definition_module : Tag) self :
  let promoted := make_mutable definition_module self in
  m_immutable promoted = false
  /\ (tag_is_valid (m_module_tag self) = true ->
      m_module_tag promoted = m_module_tag self)
  /\ (tag_is_valid (m_module_tag self) = false ->
      m_module_tag promoted = definition_module)
  /\ tag_is_valid (m_module_tag promoted)
     = tag_is_valid (m_module_tag self) || tag_is_valid definition_module
  /\ (m_definition_tag promoted = m_definition_tag self
      /\ m_function_index promoted = m_function_index self
      /\ m_mdl_semantic promoted = m_mdl_semantic self
      /\ m_definition_name promoted = m_definition_name self
      /\ m_parameter_types promoted = m_parameter_types self
      /\ m_return_type promoted = m_return_type self
      /\ m_arguments promoted = m_arguments self
      /\ m_enable_if_conditions promoted = m_enable_if_conditions self)
  /\ make_mutable definition_module promoted = promoted.
Proof.
  intros promoted. subst promoted. unfold make_mutable. cbn.
  destruct (tag_is_valid (m_module_tag self)) eqn:Hvalid; cbn.
  - rewrite Hvalid. by repeat split.
  - destruct (tag_is_valid definition_module) eqn:Hmodule; cbn;
      by repeat split.
Qed.

End Binder_bulk_and_accessors.

Section Promotion_composition.
Context `{Collaborators}.
Implicit Types (transaction : Transaction) (self : Mdl_function_call).

(** X11.  After [make_mutable], [set_argument] no longer returns -4: an
    argument that was refused for another reason is refused with the same
    code, and one that was refused only because the node was immutable now
    gets 0, -5, -6 or -8.  The references of the promoted node hold its
    module tag, next to everything the call is given and collects. *)
Theorem make_mutable_then (definition_module : Tag) transaction self index argument
    (result : Tag_set) :
  let promoted := make_mutable definition_module self in
  let before := (set_argument transaction self index argument).1 in
  let after := (set_argument transaction promoted index argument).1 in
  after <> -4
  /\ (before <> -4 -> after = before)
  /\ (before = -4 -> after ∈ [ 0; -5; -6; -8 ])
  /\ get_scene_element_references promoted result
     = {[ m_module_tag promoted ]} ∪ result
       ∪ expression_list_references (m_arguments self)
       ∪ expression_list_references (m_enable_if_conditions self).
Proof.
  intros promoted before after. subst promoted before after.
  split_and!; [| | |done];
    rewrite !set_argument_code; unfold bind_one_verdict, bind_one_checks;
    (destruct argument as [a|]; [|by cbn]);
    cbn [make_mutable m_parameter_types m_immutable];
    (destruct (Named_list.get (m_parameter_types self) index) as [expected|];
       [|by cbn]);
    destruct (argument_type_matches_parameter_type _ _), (m_immutable self),
      (carries_qualifier (MDL.get_type a) MK_VARYING
       && carries_qualifier expected MK_UNIFORM),
      (is_constant_or_call a),
      (carries_qualifier expected MK_UNIFORM
       && return_type_is_varying transaction a);
    cbn; try done; intros _; by repeat constructor.
Qed.

End Promotion_composition.

(** ** Graph lowering engine *)

Section Lowering_extras.
Context `{Lowering_world}.
Implicit Types (transaction : Transaction) (self : Mdl_function_call).

(** [create_jitted_function], step by step. *)
Lemma create_jitted_function_steps transaction self (environment_context : bool)
    (mdl_meters_per_scene_unit mdl_wavelength_min mdl_wavelength_max : Float32) :
  create_jitted_function transaction self environment_context
    mdl_meters_per_scene_unit mdl_wavelength_min mdl_wavelength_max
  = if negb jit_generator_available
    then {| jitted_func := None; errors := -1; events := [] |}
    else if negb (return_type_is_ok
                    (definition_mdl_return_type transaction (m_definition_tag self)))
    then {| jitted_func := None; errors := -2; events := [] |}
    else
      match converted_arguments transaction self environment_context
              mdl_meters_per_scene_unit mdl_wavelength_min mdl_wavelength_max with
      | None =>
          {| jitted_func := None; errors := -3;
             events := jit_option_events ++
               [ Log_error (conversion_failure_message
                   (add_mdl_db_prefix
                      (get_function_name
                         (module_code_dag transaction (m_module_tag self))
                         (m_function_index self)))) ] |}
      | Some mdl_arguments =>
          let node := lowered_node transaction self mdl_arguments in
          let lambda :=
            lowered_lambda transaction self environment_context mdl_arguments in
          let jitted :=
            compile_lowered transaction self environment_context mdl_arguments in
          {| jitted_func := jitted;
             errors := if jitted is None then -4 else 0;
             events := jit_option_events ++
               [ if environment_context then Set_body node
                 else Store_root_expr node;
                 if environment_context then Compile_into_environment lambda
                 else Compile_into_switch_function lambda 1 0 ] |}
      end.
Proof.
  unfold create_jitted_function, converted_arguments, compile_lowered,
    lowered_lambda, lowered_node, lowered_call, fresh_lambda.
  destruct (negb jit_generator_available); [done|].
  destruct (negb (return_type_is_ok _)); [done|].
  destruct (convert_arguments _ _ _ _ _ _ _ _ _); [|done].
  by destruct environment_context.
Qed.

(** X12.  What [create_jitted_function] leaves in [*errors] names the first
    step that failed: -1 without a JIT generator; else -2 for a return type
    that is not accepted; else -3 when an argument does not convert; else -4
    when the compile entry point of the context answers null; else 0.  The
    function returns a compiled function exactly when it leaves 0, and then
    the one that the entry point answered. *)
Theorem create_jitted_function_error_codes transaction self
    (environment_context : bool)
    (mdl_meters_per_scene_unit mdl_wavelength_min mdl_wavelength_max : Float32) :
  let outcome :=
    create_jitted_function transaction self environment_context
      mdl_meters_per_scene_unit mdl_wavelength_min mdl_wavelength_max in
  let return_type := definition_mdl_return_type transaction (m_definition_tag self) in
  let converted :=
    converted_arguments transaction self environment_context
      mdl_meters_per_scene_unit mdl_wavelength_min mdl_wavelength_max in
  let compiled := compile_lowered transaction self environment_context in
  (errors outcome = -1 <-> jit_generator_available = false)
  /\ (errors outcome = -2 <->
      jit_generator_available = true /\ ~ accepted_return_shape return_type)
  /\ (errors outcome = -3 <->
      jit_generator_available = true /\ accepted_return_shape return_type
      /\ converted = None)
  /\ (errors outcome = -4 <->
      jit_generator_available = true /\ accepted_return_shape return_type
      /\ exists mdl_arguments,
           converted = Some mdl_arguments /\ compiled mdl_arguments = None)
  /\ (errors outcome = 0 <->
      jit_generator_available = true /\ accepted_return_shape return_type
      /\ exists mdl_arguments,
           converted = Some mdl_arguments
           /\ is_Some (compiled mdl_arguments)
           /\ jitted_func outcome = compiled mdl_arguments)
  /\ (is_Some (jitted_func outcome) <-> errors outcome = 0)
  /\ errors outcome ∈ create_jitted_function_codes.
Proof.
  intros outcome return_type converted compiled.
  subst outcome converted compiled.
  rewrite create_jitted_function_steps, <- !return_type_is_ok_accepted.
  fold return_type.
  destruct jit_generator_available, (return_type_is_ok return_type);
    cbn [negb];
    [destruct (converted_arguments _ _ _ _ _ _) as [mdl_arguments|];
       [cbn zeta;
        destruct (compile_lowered transaction self environment_context
                    mdl_arguments) as [code|] eqn:Hcompiled|]|..];
    cbn [errors jitted_func];
    (split_and!; [..|by repeat constructor]);
    split; try done; try (by intros [? ?]); try (by intros (? & ? & ?));
    try (by intros (? & ? & ? & ? & ?)).
  all: try (intros (_ & _ & arguments & [= <-] & Hnone); congruence).
  all: try (intros (_ & _ & arguments & [= <-] & [code' Hsome] & _); congruence).
  all: try (intros _; split_and!; try done; exists mdl_arguments;
            by rewrite ?Hcompiled).
Qed.

End Lowering_extras.

Section Conversion_extras.
Context `{Lowering_world}.
Implicit Types (transaction : Transaction) (self : Mdl_function_call).

(** X13.  The loop over the parameters succeeds exactly when the argument of
    every parameter of its range converts, and its result lists the
    parameters in the order of the code DAG: entry [k] is the node of the
    argument that the node binds under the name of parameter [first + k],
    converted at the type of that parameter, with that name. *)
Theorem convert_arguments_in_parameter_order transaction self
    (code_dag : IGenerated_code_dag) (lambda_func : ILambda_function)
    (mdl_meters_per_scene_unit mdl_wavelength_min mdl_wavelength_max : Float32)
    (count : nat) (first : Z) (mdl_arguments : list (DAG_node * string)) :
  convert_arguments transaction self code_dag lambda_func
    mdl_meters_per_scene_unit mdl_wavelength_min mdl_wavelength_max count first
  = Some mdl_arguments
  <-> length mdl_arguments = count
      /\ forall k : nat, (k < count)%nat ->
           let i := first + Z.of_nat k in
           let parameter_name :=
             get_function_parameter_name code_dag (m_function_index self) i in
           exists node,
             int_expr_to_mdl_dag_node transaction lambda_func
               (get_function_parameter_type code_dag (m_function_index self) i)
               (Named_list.get_by_name (m_arguments self) parameter_name)
               mdl_meters_per_scene_unit mdl_wavelength_min mdl_wavelength_max
             = Some node
             /\ mdl_arguments !! k = Some (node, parameter_name).
Proof.
  revert first mdl_arguments.
  induction count as [|count IH]; intros first mdl_arguments;
    cbn [convert_arguments].
  - split.
    + intros [= <-]. split; [done|]. intros k Hk. lia.
    + intros [Hlength _]. destruct mdl_arguments; simpl in Hlength; congruence.
  - unfold convert_argument at 1.
    destruct (int_expr_to_mdl_dag_node _ _ _ _ _ _ _) as [arg|] eqn:Hfirst.
    + destruct (convert_arguments _ _ _ _ _ _ _ count (first + 1))
        as [rest|] eqn:Hrest.
      * apply IH in Hrest as [Hlength Hrest]. split.
        -- intros [= <-]. split; [simpl; lia|].
           intros [|k] Hk; cbn zeta.
           ++ cbn [Z.of_nat]. rewrite Z.add_0_r. by exists arg.
           ++ replace (first + Z.of_nat (S k)) with (first + 1 + Z.of_nat k)
                by lia.
              apply Hrest. lia.
        -- intros [Hlength' Hall]. f_equal. apply list_eq. intros [|k].
           ++ destruct (Hall O ltac:(lia)) as (node & Hnode & Hentry).
              cbn [Z.of_nat] in Hnode, Hentry.
              rewrite Z.add_0_r in Hnode, Hentry.
              rewrite Hfirst in Hnode. injection Hnode as <-.
              by rewrite Hentry.
           ++ destruct (decide (k < count)%nat) as [Hk|Hk].
              ** destruct (Hall (S k) ltac:(lia)) as (node & Hnode & Hentry).
                 destruct (Hrest k Hk) as (node' & Hnode' & Hentry').
                 replace (first + Z.of_nat (S k)) with (first + 1 + Z.of_nat k)
                   in Hnode, Hentry by lia.
                 rewrite Hnode in Hnode'. injection Hnode' as <-.
                 rewrite Hentry. simpl. by rewrite Hentry'.
              ** rewrite !lookup_ge_None_2; [done|simpl; lia|simpl; lia].
      * split; [done|]. intros [Hlength' Hall]. exfalso.
        assert (is_Some (convert_arguments transaction self code_dag lambda_func
                           mdl_meters_per_scene_unit mdl_wavelength_min
                           mdl_wavelength_max count (first + 1))) as [? ?];
          [|congruence].
        destruct mdl_arguments as [|head rest]; [done|].
        exists rest. apply IH. split; [simpl in Hlength'; lia|].
        intros k Hk. cbn zeta.
        destruct (Hall (S k) ltac:(lia)) as (node & Hnode & Hentry).
        replace (first + Z.of_nat (S k)) with (first + 1 + Z.of_nat k)
          in Hnode, Hentry by lia.
        by exists node.
    + split; [done|]. intros [_ Hall]. exfalso.
      destruct (Hall O ltac:(lia)) as (node & Hnode & _).
      cbn [Z.of_nat] in Hnode. rewrite Z.add_0_r in Hnode. congruence.
Qed.

(** The loop reads the node through lookups of names among its arguments,
    and through its function index. *)
Lemma convert_arguments_ext transaction self self'
    (code_dag : IGenerated_code_dag) (lambda_func : ILambda_function)
    (mdl_meters_per_scene_unit mdl_wavelength_min mdl_wavelength_max : Float32)
    (count : nat) :
  m_function_index self' = m_function_index self ->
  (forall name,
      Named_list.get_by_name (m_arguments self') name
      = Named_list.get_by_name (m_arguments self) name) ->
  forall first,
    convert_arguments transaction self' code_dag lambda_func
      mdl_meters_per_scene_unit mdl_wavelength_min mdl_wavelength_max count first
    = convert_arguments transaction self code_dag lambda_func
        mdl_meters_per_scene_unit mdl_wavelength_min mdl_wavelength_max count first.
Proof.
  intros Hindex Hlookup. induction count as [|count IH]; intros first; [done|].
  cbn [convert_arguments]. unfold convert_argument.
  by rewrite Hindex, Hlookup, IH.
Qed.

(** X14.  Lowering does not depend on the order in which the node holds its
    arguments: with unique names (and a size that is a [mi::Size]), a node
    whose argument list is a permutation gives the same outcome, since every
    argument is fetched by the name of its parameter in the code DAG. *)
Theorem create_jitted_function_ignores_argument_order transaction self
    (arguments : IExpression_list) (environment_context : bool)
    (mdl_meters_per_scene_unit mdl_wavelength_min mdl_wavelength_max : Float32) :
  NoDup (m_arguments self).*1 ->
  fits_Size (m_arguments self) ->
  m_arguments self ≡ₚ arguments ->
  create_jitted_function transaction (with_arguments self arguments)
    environment_context mdl_meters_per_scene_unit mdl_wavelength_min
    mdl_wavelength_max
  = create_jitted_function transaction self environment_context
      mdl_meters_per_scene_unit mdl_wavelength_min mdl_wavelength_max.
Proof.
  intros Hnodup Hfits Hperm. unfold create_jitted_function.
  cbn [with_arguments m_definition_tag m_module_tag m_function_index].
  rewrite (convert_arguments_ext transaction self (with_arguments self arguments));
    [done|done|].
  intros name. symmetry. by apply get_by_name_Permutation.
Qed.

(** X15.  A color result is not wrapped: when the return type of the
    definition is a color, the node that the lambda function receives and
    that is compiled is the call node itself, named after the function in the
    code DAG, with the semantic of the definition, the converted arguments
    and the return type. *)
Theorem create_jitted_function_color_result
    transaction self (environment_context : bool)
    (mdl_meters_per_scene_unit mdl_wavelength_min mdl_wavelength_max : Float32)
    (mdl_arguments : list (DAG_node * string)) :
  let return_type := definition_mdl_return_type transaction (m_definition_tag self) in
  let code_dag := module_code_dag transaction (m_module_tag self) in
  jit_generator_available = true ->
  is_color return_type ->
  converted_arguments transaction self environment_context
    mdl_meters_per_scene_unit mdl_wavelength_min mdl_wavelength_max
  = Some mdl_arguments ->
  let call :=
    DAG_call (get_function_name code_dag (m_function_index self))
      (definition_mdl_semantic transaction (m_definition_tag self))
      mdl_arguments return_type in
  let outcome :=
    create_jitted_function transaction self environment_context
      mdl_meters_per_scene_unit mdl_wavelength_min mdl_wavelength_max in
  if environment_context
  then
    events outcome =
      jit_option_events ++
      [ Set_body call;
        Compile_into_environment
          {| lambda_context := LEC_ENVIRONMENT;
             lambda_roots := [];
             lambda_body := Some call |} ]
  else
    events outcome =
      jit_option_events ++
      [ Store_root_expr call;
        Compile_into_switch_function
          {| lambda_context := LEC_DISPLACEMENT;
             lambda_roots := [ call ];
             lambda_body := None |} 1 0 ].
Proof.
  intros return_type code_dag Hjit Hcolor Hconverted call outcome.
  subst outcome. rewrite create_jitted_function_steps, Hjit, Hconverted.
  assert (return_type_is_ok return_type = true) as Hok
    by (apply return_type_is_ok_accepted; by left).
  fold return_type. rewrite Hok. cbn [negb events].
  assert (lowered_node transaction self mdl_arguments = call) as Hnode.
  { unfold lowered_node, wrap_struct_result, as_IType_struct.
    fold return_type. unfold is_color in Hcolor.
    by destruct (skip_type_alias return_type). }
  unfold lowered_lambda, fresh_lambda. rewrite Hnode.
  by destruct environment_context.
Qed.

End Conversion_extras.

Section Event_extras.
Context `{Lowering_world}.
Implicit Types (transaction : Transaction) (self : Mdl_function_call).

Lemma jit_option_events_are_options (e : Event) :
  e ∈ jit_option_events ->
  (e = Set_option MDL_JIT_OPTION_ENABLE_RO_SEGMENT "true"
   \/ e = Set_option MDL_JIT_OPTION_USE_BITANGENT "true")
  \/ (exists level, registry_jit_opt_level = Some level
        /\ e = Set_option MDL_JIT_OPTION_OPT_LEVEL (std_to_string level))
  \/ (exists fast, registry_jit_fast_math = Some fast
        /\ e = Set_option MDL_JIT_OPTION_FAST_MATH (if fast then "true" else "false")).
Proof.
  unfold jit_option_events.
  rewrite !elem_of_app, !elem_of_cons, elem_of_nil.
  intros [[->|[->|[]]]|[Hlevel|Hfast]]; [by left; left|by left; right| |].
  - destruct registry_jit_opt_level as [level|];
      [|by apply elem_of_nil in Hlevel].
    apply list_elem_of_singleton in Hlevel as ->. right; left. by exists level.
  - destruct registry_jit_fast_math as [fast|];
      [|by apply elem_of_nil in Hfast].
    apply list_elem_of_singleton in Hfast as ->. right; right. by exists fast.
Qed.

Lemma jit_option_events_no_log :
  existsb is_log_event jit_option_events = false
  /\ existsb is_compile_event jit_option_events = false
  /\ filter is_compile_event jit_option_events = [].
Proof.
  unfold jit_option_events.
  by destruct registry_jit_opt_level, registry_jit_fast_math.
Qed.

(** X16.  The trace of [create_jitted_function].  Nothing happens before the
    generator and the return type are accepted; an error is logged exactly
    when -3 is left in [*errors]; a compile entry point is called exactly
    when 0 or -4 is left, and then once: [compile_into_environment] only in
    the environment context, on a lambda function of that context with a
    body and no root, [compile_into_switch_function] only in the other
    context, with 1 texture space and 0 texture results, on a lambda function
    with one root and no body. *)
Theorem create_jitted_function_events transaction self (environment_context : bool)
    (mdl_meters_per_scene_unit mdl_wavelength_min mdl_wavelength_max : Float32) :
  let outcome :=
    create_jitted_function transaction self environment_context
      mdl_meters_per_scene_unit mdl_wavelength_min mdl_wavelength_max in
  (events outcome = [] <-> errors outcome = -1 \/ errors outcome = -2)
  /\ (existsb is_log_event (events outcome) = true <-> errors outcome = -3)
  /\ (existsb is_compile_event (events outcome) = true
      <-> errors outcome = 0 \/ errors outcome = -4)
  /\ (length (filter is_compile_event (events outcome)) <= 1)%nat
  /\ (forall lambda,
        Compile_into_environment lambda ∈ events outcome ->
        environment_context = true
        /\ lambda_context lambda = LEC_ENVIRONMENT
        /\ is_Some (lambda_body lambda)
        /\ lambda_roots lambda = [])
  /\ (forall lambda spaces results,
        Compile_into_switch_function lambda spaces results ∈ events outcome ->
        environment_context = false
        /\ spaces = 1 /\ results = 0
        /\ lambda_context lambda = LEC_DISPLACEMENT
        /\ length (lambda_roots lambda) = 1%nat
        /\ lambda_body lambda = None).
Proof.
  intros outcome. subst outcome. rewrite create_jitted_function_steps.
  destruct jit_option_events_no_log as (Hlog & Hcompile & Hfilter).
  assert (forall tail : list Event, jit_option_events ++ tail <> []) as Hoptions.
  { intros tail. unfold jit_option_events. by rewrite <- !app_assoc. }
  assert (forall (e : Event) tail,
            is_compile_event e = true ->
            e ∈ jit_option_events ++ tail -> e ∈ tail) as Htail.
  { intros e tail He [Hin|Hin]%elem_of_app; [|done].
    apply jit_option_events_are_options in Hin
      as [[->| ->]|[(? & _ & ->)|(? & _ & ->)]]; done. }
  destruct (negb jit_generator_available);
    [|destruct (negb (return_type_is_ok _));
      [|destruct (converted_arguments _ _ _ _ _ _) as [mdl_arguments|]]].
  - cbn. split_and!.
    + split; auto.
    + by split.
    + split; [done|by intros [|]].
    + lia.
    + intros lambda Hin. by apply elem_of_nil in Hin.
    + intros lambda spaces results Hin. by apply elem_of_nil in Hin.
  - cbn. split_and!.
    + split; auto.
    + by split.
    + split; [done|by intros [|]].
    + lia.
    + intros lambda Hin. by apply elem_of_nil in Hin.
    + intros lambda spaces results Hin. by apply elem_of_nil in Hin.
  - cbn zeta. cbn [events errors].
    rewrite !existsb_app, filter_app, Hlog, Hcompile, Hfilter.
    split_and!.
    + split; [intros Hnil; by apply Hoptions in Hnil|].
      by destruct (compile_lowered _ _ _ _); intros [|].
    + by destruct (compile_lowered _ _ _ _), environment_context.
    + destruct (compile_lowered _ _ _ _), environment_context; cbn; split; auto.
    + destruct environment_context; vm_compute; lia.
    + intros lambda Hin. apply Htail in Hin; [|done].
      destruct environment_context;
        apply elem_of_cons in Hin as [[=]|Hin];
        apply list_elem_of_singleton in Hin; [|done].
      injection Hin as ->. unfold lowered_lambda, fresh_lambda. by cbn.
    + intros lambda spaces results Hin. apply Htail in Hin; [|done].
      destruct environment_context;
        apply elem_of_cons in Hin as [[=]|Hin];
        apply list_elem_of_singleton in Hin; [done|].
      injection Hin as -> -> ->. unfold lowered_lambda, fresh_lambda. by cbn.
  - cbn [events errors].
    rewrite !existsb_app, filter_app, Hlog, Hcompile, Hfilter.
    split_and!.
    + split; [intros Hnil; by apply Hoptions in Hnil|by intros [|]].
    + by split.
    + split; [done|by intros [|]].
    + vm_compute. lia.
    + intros lambda Hin. apply Htail in Hin; [|done].
      by apply list_elem_of_singleton in Hin.
    + intros lambda spaces results Hin. apply Htail in Hin; [|done].
      by apply list_elem_of_singleton in Hin.
Qed.

(** X17.  The options of the generator.  Whenever the generator and the
    return type are accepted, the read-only segment and the bitangent are
    switched on first; the optimization level and fast math are set exactly
    when the registry holds a value for them, to that value; and no other
    option is set. *)
Theorem create_jitted_function_options transaction self (environment_context : bool)
    (mdl_meters_per_scene_unit mdl_wavelength_min mdl_wavelength_max : Float32) :
  let outcome :=
    create_jitted_function transaction self environment_context
      mdl_meters_per_scene_unit mdl_wavelength_min mdl_wavelength_max in
  errors outcome <> -1 ->
  errors outcome <> -2 ->
  (exists tail,
      events outcome
      = Set_option MDL_JIT_OPTION_ENABLE_RO_SEGMENT "true"
        :: Set_option MDL_JIT_OPTION_USE_BITANGENT "true" :: tail)
  /\ (forall option value,
        Set_option option value ∈ events outcome <->
        (option = MDL_JIT_OPTION_ENABLE_RO_SEGMENT /\ value = "true"%string)
        \/ (option = MDL_JIT_OPTION_USE_BITANGENT /\ value = "true"%string)
        \/ (option = MDL_JIT_OPTION_OPT_LEVEL
            /\ exists level, registry_jit_opt_level = Some level
                 /\ value = std_to_string level)
        \/ (option = MDL_JIT_OPTION_FAST_MATH
            /\ exists fast, registry_jit_fast_math = Some fast
                 /\ value = if fast then "true"%string else "false"%string)).
Proof.
  intros outcome. subst outcome. rewrite create_jitted_function_steps.
  assert (forall option value,
            Set_option option value ∈ jit_option_events <->
            (option = MDL_JIT_OPTION_ENABLE_RO_SEGMENT /\ value = "true"%string)
            \/ (option = MDL_JIT_OPTION_USE_BITANGENT /\ value = "true"%string)
            \/ (option = MDL_JIT_OPTION_OPT_LEVEL
                /\ exists level, registry_jit_opt_level = Some level
                     /\ value = std_to_string level)
            \/ (option = MDL_JIT_OPTION_FAST_MATH
                /\ exists fast, registry_jit_fast_math = Some fast
                     /\ value = if fast then "true"%string else "false"%string))
    as Hoptions.
  { intros option value. split.
    - intros [[Heq|Heq]|[(level & Hlevel & Heq)|(fast & Hfast & Heq)]]
        %jit_option_events_are_options; injection Heq as -> ->; eauto 10.
    - unfold jit_option_events.
      intros [[-> ->]|[[-> ->]|[[-> (level & -> & ->)]|[-> (fast & -> & ->)]]]];
        rewrite !elem_of_app, !elem_of_cons; eauto 10. }
  assert (forall option value (tail : list Event),
            Forall (fun e => forall o v, e <> Set_option o v) tail ->
            Set_option option value ∈ jit_option_events ++ tail <->
            Set_option option value ∈ jit_option_events) as Htail.
  { intros option value tail Hforall. rewrite elem_of_app. split; [|by left].
    intros [Hin|Hin]; [done|]. rewrite Forall_forall in Hforall.
    by destruct (Hforall _ Hin option value). }
  destruct (negb jit_generator_available); [done|].
  destruct (negb (return_type_is_ok _)); [done|].
  intros _ _.
  destruct (converted_arguments _ _ _ _ _ _) as [mdl_arguments|];
    cbn zeta; cbn [events].
  - split; [unfold jit_option_events; rewrite <- !app_assoc; eauto|].
    intros option value. rewrite Htail; [apply Hoptions|].
    by destruct environment_context; repeat constructor.
  - split; [unfold jit_option_events; rewrite <- !app_assoc; eauto|].
    intros option value. rewrite Htail; [apply Hoptions|].
    by repeat constructor.
Qed.

End Event_extras.

(** ** Persistence codec *)

Section Persistence_extras.
Context `{Persistence}.

(** The words written are read back: the semantic read is the word that
    [serialize] wrote for it. *)
Lemma deserialize_serialize_words (this : Scene_element) (rest : list Z) :
  members_round_trip this ->
  deserialize (serialize this ++ rest)
  = Some ({| base := base this;
             call := with_semantic (call this)
                       (static_cast_Uint32 (m_mdl_semantic (call this))) |},
          rest).
Proof.
  intros (Hbase & Htypes & Hreturn & Harguments & Hconditions).
  unfold serialize, deserialize. rewrite <- !app_assoc.
  rewrite Hbase. cbn [mbind option_bind].
  rewrite (Tag_codec_round_trips (m_module_tag (call this))). cbn [mbind option_bind].
  rewrite (Tag_codec_round_trips (m_definition_tag (call this))). cbn [mbind option_bind].
  rewrite (Uint32_codec_round_trips (m_function_index (call this))).
  cbn [mbind option_bind].
  rewrite (Uint32_codec_round_trips
             (static_cast_Uint32 (m_mdl_semantic (call this)))).
  cbn [mbind option_bind].
  rewrite (string_codec_round_trips (m_definition_name (call this))).
  cbn [mbind option_bind].
  rewrite (bool_codec_round_trips (m_immutable (call this))). cbn [mbind option_bind].
  rewrite Htypes. cbn [mbind option_bind].
  rewrite Hreturn. cbn [mbind option_bind].
  rewrite Harguments. cbn [mbind option_bind].
  by rewrite Hconditions.
Qed.

(** X19.  The words of a valid node determine it: when two nodes, each with a
    semantic of 32 bits and members that the codecs of the collaborators read
    back, serialize to buffers where one continues the other, they are the
    same node followed by the same words. *)
Theorem serialize_injective (this that : Scene_element) (rest rest' : list Z) :
  0 <= m_mdl_semantic (call this) < 2 ^ 32 ->
  0 <= m_mdl_semantic (call that) < 2 ^ 32 ->
  members_round_trip this ->
  members_round_trip that ->
  serialize this ++ rest = serialize that ++ rest' ->
  this = that /\ rest = rest'.
Proof.
  intros Hthis Hthat Hmembers Hmembers' Hwords.
  pose proof (deserialize_serialize_words this rest Hmembers) as Hread.
  pose proof (deserialize_serialize_words that rest' Hmembers') as Hread'.
  rewrite Hwords, Hread' in Hread.
  rewrite !static_cast_Uint32_semantic in Hread by done.
  destruct this as [b [? ? ? ? ? ? ? ? ? ?]], that as [b' [? ? ? ? ? ? ? ? ? ?]].
  cbn in Hread. injection Hread; intros. by subst.
Qed.

End Persistence_extras.

(** ** The further properties on the sample nodes *)

Lemma immutable_node_is_never_rebound_witness :
  (forall index argument,
      (@set_argument sample_collaborators tt sample_default index argument).1 <> 0
      /\ (@set_argument sample_collaborators tt sample_default index argument).2
         = sample_default)
  /\ (forall name argument,
        (@set_argument_by_name sample_collaborators tt sample_default name
           argument).1 <> 0
        /\ (@set_argument_by_name sample_collaborators tt sample_default name
              argument).2 = sample_default)
  /\ (forall arguments,
        (@set_arguments sample_collaborators tt sample_default arguments).2
        = sample_default)
  /\ (forall entry entries,
        (@set_arguments sample_collaborators tt sample_default
           (Some (entry :: entries))).1 <> 0).
Proof.
  apply (@immutable_node_is_never_rebound sample_collaborators tt sample_default).
  reflexivity.
Defined.

Lemma set_argument_last_binding_wins_witness :
  @set_argument sample_collaborators tt
    (@set_argument sample_collaborators tt sample_call 0
       (Some (float_constant 1073741824))).2
    0 (Some (float_constant 1065353216))
  = @set_argument sample_collaborators tt sample_call 0
      (Some (float_constant 1065353216)).
Proof.
  apply (@set_argument_last_binding_wins sample_collaborators tt sample_call 0
           (Some (float_constant 1073741824)) (Some (float_constant 1065353216))).
  reflexivity.
Defined.

Lemma set_argument_bindings_commute_witness :
  (@set_argument sample_collaborators tt
     (@set_argument sample_collaborators tt sample_call 0
        (Some (float_constant 1065353216))).2
     1 (Some (int_constant 1))).1
  = (@set_argument sample_collaborators tt sample_call 1 (Some (int_constant 1))).1
  /\ (@set_argument sample_collaborators tt
        (@set_argument sample_collaborators tt sample_call 1
           (Some (int_constant 1))).2
        0 (Some (float_constant 1065353216))).1
     = (@set_argument sample_collaborators tt sample_call 0
          (Some (float_constant 1065353216))).1
  /\ (@set_argument sample_collaborators tt
        (@set_argument sample_collaborators tt sample_call 0
           (Some (float_constant 1065353216))).2
        1 (Some (int_constant 1))).2
     = (@set_argument sample_collaborators tt
          (@set_argument sample_collaborators tt sample_call 1
             (Some (int_constant 1))).2
          0 (Some (float_constant 1065353216))).2.
Proof.
  apply (@set_argument_bindings_commute sample_collaborators tt sample_call 0 1
           (Some (float_constant 1065353216)) (Some (int_constant 1))).
  lia.
Defined.

Lemma set_argument_unknown_parameter_iff_witness :
  (@set_argument sample_collaborators tt sample_call 2
     (Some (float_constant 0))).1 = -2
  <-> ~ (0 <= 2 < get_parameter_count sample_call).
Proof.
  apply (@set_argument_unknown_parameter_iff sample_collaborators tt sample_call 2
           (float_constant 0)).
  reflexivity.
Defined.

Lemma set_argument_by_name_resolves_witness :
  ((@set_argument_by_name sample_collaborators tt sample_call (Some "a")
      (Some (float_constant 1065353216))).1 = -2
   <-> "a"%string ∉ (m_arguments sample_call).*1)
  /\ (@set_argument_by_name sample_collaborators tt sample_call (Some "a")
        (Some (float_constant 1065353216)) = (0, sample_call_after_a) ->
      Named_list.get_by_name (m_arguments sample_call_after_a) "a"
      = Some (@clone sample_collaborators (float_constant 1065353216))
      /\ forall other, other <> "a"%string ->
           Named_list.get_by_name (m_arguments sample_call_after_a) other
           = Named_list.get_by_name (m_arguments sample_call) other).
Proof.
  apply (@set_argument_by_name_resolves sample_collaborators tt sample_call "a"
           (float_constant 1065353216) sample_call_after_a).
  - unfold fits_Size, Size_none. simpl. lia.
  - reflexivity.
Defined.

Lemma set_arguments_success_binds_all_witness :
  (forall name a,
      (name, a) ∈ [ ("b", float_constant 1065353216); ("a", float_constant 0) ] ->
      Named_list.get_by_name (m_arguments sample_call_after_b) name
      = Some (@clone sample_collaborators a))
  /\ (forall name,
        name ∉ [ ("b", float_constant 1065353216); ("a", float_constant 0) ].*1 ->
        Named_list.get_by_name (m_arguments sample_call_after_b) name
        = Named_list.get_by_name (m_arguments sample_call) name).
Proof.
  apply (@set_arguments_success_binds_all sample_collaborators tt sample_call
           [ ("b", float_constant 1065353216); ("a", float_constant 0) ]
           sample_call_after_b).
  - apply (bool_decide_unpack _). vm_compute. reflexivity.
  - unfold fits_Size, Size_none. simpl. lia.
  - reflexivity.
Defined.

Lemma create_jitted_function_ignores_argument_order_witness :
  sample_lower sample_call_swapped false = sample_lower sample_call false.
Proof.
  apply (@create_jitted_function_ignores_argument_order sample_collaborators
           sample_world tt sample_call (m_arguments sample_call_swapped) false
           0 0 0).
  - apply (bool_decide_unpack _). vm_compute. reflexivity.
  - unfold fits_Size, Size_none. simpl. lia.
  - apply perm_swap.
Defined.

Lemma create_jitted_function_color_result_witness :
  events (sample_lower sample_call false)
  = @jit_option_events _ sample_world ++
    [ Store_root_expr sample_call_node;
      Compile_into_switch_function sample_call_lambda 1 0 ].
Proof.
  apply (@create_jitted_function_color_result sample_collaborators sample_world
           tt sample_call false 0 0 0
           [ (DAG_constant (Value_bits [ 0 ]), "a"%string);
             (DAG_constant (Value_bits [ 0 ]), "b"%string) ]).
  - reflexivity.
  - reflexivity.
  - reflexivity.
Defined.

Lemma create_jitted_function_options_witness :
  (exists tail,
      events (sample_lower sample_cyclic_call true)
      = Set_option MDL_JIT_OPTION_ENABLE_RO_SEGMENT "true"
        :: Set_option MDL_JIT_OPTION_USE_BITANGENT "true" :: tail)
  /\ (forall option value,
        Set_option option value ∈ events (sample_lower sample_cyclic_call true) <->
        (option = MDL_JIT_OPTION_ENABLE_RO_SEGMENT /\ value = "true"%string)
        \/ (option = MDL_JIT_OPTION_USE_BITANGENT /\ value = "true"%string)
        \/ (option = MDL_JIT_OPTION_OPT_LEVEL
            /\ exists level, @registry_jit_opt_level _ sample_world = Some level
                 /\ value = std_to_string level)
        \/ (option = MDL_JIT_OPTION_FAST_MATH
            /\ exists fast, @registry_jit_fast_math _ sample_world = Some fast
                 /\ value = if fast then "true"%string else "false"%string)).
Proof.
  apply (@create_jitted_function_options sample_collaborators sample_world tt
           sample_cyclic_call true 0 0 0).
  - change (-3 <> -1). lia.
  - change (-3 <> -2). lia.
Defined.

Lemma serialize_injective_witness :
  sample_element = sample_element /\ [ 42 ] = [ 42 ].
Proof.
  apply (@serialize_injective sample_persistence sample_element sample_element
           [ 42 ] [ 42 ]).
  - simpl. lia.
  - simpl. lia.
  - repeat split; intros rest; reflexivity.
  - repeat split; intros rest; reflexivity.
  - reflexivity.
Defined.
